(** * resetprop: the property store of native/src/resetprop/resetprop.cpp

    A shallow embedding of the name validator, of the flag word and of the
    get / set / delete / enumerate / load-file operations, together with
    the properties of them that the design document states.

    Conventions of the embedding.
    - A [const char *] is a [string]; [name[i]] is [char_at name i], which
      yields the terminating NUL at index [strlen name].
    - [int] statuses are [Z]; [uint32_t flags] is a [Z] handled with
      [Z.lor] and [Z.land].
    - The live property table and the persisted store are external
      collaborators: the operations are written once, over any
      implementation of the two interfaces [LiveStore] and [PersistStore].
    - Every operation is a computation [M A]: from the state of the stores
      it yields its result, the state afterwards, and the chronological
      list of adapter calls and output lines it made.
    - [LOGD], [LOGW] and [LOGE] only write to the log and are left out.
    - The build without [APPLET_STUB_MAIN] is the one embedded: the
      platform functions are reached through the pointers that
      [Initialize] resolves. *)

From Stdlib Require Import String Ascii List ZArith Bool Arith Lia.
Import ListNotations.
Local Open Scope string_scope.
Local Open Scope list_scope.

(** ** Strings as C sees them *)

(** [name[i]]: the character at index [i]; past the end, the NUL byte. *)
Definition char_at (name : string) (i : nat) : ascii :=
  match String.get i name with
  | Some c => c
  | None => Ascii.zero
  end.

(** [strlen]. *)
Definition strlen (s : string) : nat := String.length s.

(** Comparison of two [char]s, on their code points.  Whether [char] is
    signed or not changes nothing below: a byte above 127 fails [<= 'z']
    when unsigned and [>= '0'] when signed. *)
Definition char_eq (a b : ascii) : bool := Ascii.eqb a b.
Definition char_le (a b : ascii) : bool := (nat_of_ascii a <=? nat_of_ascii b)%nat.

(** Modelled from the spec: [str_starts] is declared in base.hpp, which is
    not part of the sources at hand; the design document reads it as "the
    name carries the prefix". *)
Definition str_starts (s prefix : string) : bool := String.prefix prefix s.

(** [std::string::empty]. *)
Definition empty (s : string) : bool :=
  match s with
  | EmptyString => true
  | String _ _ => false
  end.

(** ** PropFlags *)

Module PropFlags.

Definition t := Z.

(** [uint32_t flags = 0]. *)
Definition init : t := 0%Z.

Definition setSkipSvc (flags : t) : t := Z.lor flags 1.
Definition setPersist (flags : t) : t := Z.lor flags (Z.shiftl 1 1).
Definition setContext (flags : t) : t := Z.lor flags (Z.shiftl 1 2).

(** The conversion of [flags & mask] to [bool]: non-zero is true. *)
Definition isSkipSvc (flags : t) : bool := negb (Z.land flags 1 =? 0)%Z.
Definition isPersist (flags : t) : bool := negb (Z.land flags (Z.shiftl 1 1) =? 0)%Z.
Definition isContext (flags : t) : bool := negb (Z.land flags (Z.shiftl 1 2) =? 0)%Z.

End PropFlags.
Import PropFlags.

(** ** The name validator *)

(** The body of the [for] loop at index [i]: [true] stands for [continue],
    [false] for [goto illegal].  At [i = 0] the character is never a dot
    when the loop is entered, so [name[i-1]] is only read for [i >= 1]. *)
Definition legal_at (name : string) (i : nat) : bool :=
  let c := char_at name i in
  if char_eq c "." then
    if char_eq (char_at name (i - 1)) "." then false else true
  else if char_eq c "_" || char_eq c "-" || char_eq c "@" || char_eq c ":" then true
  else if char_le "a" c && char_le c "z" then true
  else if char_le "A" c && char_le c "Z" then true
  else if char_le "0" c && char_le c "9" then true
  else false.

(** [for (size_t i = ...; i < namelen; i++)], with [todo = namelen - i]
    iterations left. *)
Fixpoint legal_from (name : string) (i todo : nat) : bool :=
  match todo with
  | O => true
  | S todo' => if legal_at name i then legal_from name (S i) todo' else false
  end.

Definition check_legal_property_name (name : string) : bool :=
  let namelen := strlen name in
  if (namelen <? 1)%nat then false
  else if char_eq (char_at name 0) "." then false
  else if char_eq (char_at name (namelen - 1)) "." then false
  else legal_from name 0 namelen.

(** The grammar of a property name in the words of the design document:
    a non-empty sequence of bytes, each an ASCII letter, a digit or one of
    [. - @ : _], that neither starts nor ends with a dot and never has two
    dots in a row. *)
Module NameGrammar.

Definition is_letter (c : ascii) : Prop :=
    (65 <= nat_of_ascii c <= 90 \/ 97 <= nat_of_ascii c <= 122)%nat.

Definition is_digit (c : ascii) : Prop :=
    (48 <= nat_of_ascii c <= 57)%nat.

Definition is_punct (c : ascii) : Prop :=
    In c ["."; "-"; "@"; ":"; "_"]%char.

Definition allowed (c : ascii) : Prop :=
    is_letter c \/ is_digit c \/ is_punct c.

Definition dot : ascii := "."%char.

Record legal (name : string) : Prop := {
    non_empty : name <> "";
    no_leading_dot : forall rest, name <> String dot rest;
    no_trailing_dot : forall front, name <> (front ++ String dot "")%string;
    no_double_dot : forall front rest,
      name <> (front ++ String dot (String dot rest))%string;
    all_allowed : Forall allowed (list_ascii_of_string name)
  }.

End NameGrammar.

(** ** Adapter calls and the computations that make them *)

(** What an operation does to the outside, in the order it does it: the
    calls into the live property table ([Sys...]), the symbol lookups of
    the initialisation, the calls into the persisted store ([Persist...])
    and the lines written to standard output.  [H] is the type of the
    handles ([const prop_info *]) of the live table. *)
Inductive event (H : Type) : Type :=
| SysFind (name : string)
| SysRead (pi : H)
| SysReadCallback (pi : H)
| SysForeach
| SysAdd (name value : string)
| SysUpdate (pi : H) (value : string)
| SysDelete (name : string) (prune : bool)
| SysSet (name value : string)
| SysGetContext (name : string)
| SysInit
| Dlsym (symbol : string)
| PersistGet (name : string)
| PersistDelete (name : string)
| PersistForeach
| Printf (line : string).

Arguments SysFind {H} name.
Arguments SysRead {H} pi.
Arguments SysReadCallback {H} pi.
Arguments SysForeach {H}.
Arguments SysAdd {H} name value.
Arguments SysUpdate {H} pi value.
Arguments SysDelete {H} name prune.
Arguments SysSet {H} name value.
Arguments SysGetContext {H} name.
Arguments SysInit {H}.
Arguments Dlsym {H} symbol.
Arguments PersistGet {H} name.
Arguments PersistDelete {H} name.
Arguments PersistForeach {H}.
Arguments Printf {H} line.

(** A call into the persisted store. *)
Definition is_persist_call {H} (e : event H) : bool :=
  match e with
  | PersistGet _ | PersistDelete _ | PersistForeach => true
  | _ => false
  end.

(** A call that reads or changes the live property table. *)
Definition is_live_call {H} (e : event H) : bool :=
  match e with
  | SysFind _ | SysRead _ | SysReadCallback _ | SysForeach | SysAdd _ _
  | SysUpdate _ _ | SysDelete _ _ | SysSet _ _ | SysGetContext _ => true
  | _ => false
  end.

(** A run of the process-wide initialisation. *)
Definition is_init {H} (e : event H) : bool :=
  match e with
  | SysInit => true
  | _ => false
  end.

(** A computation over the state [W] of the outside world. *)
Definition M (W H A : Type) : Type := W -> A * W * list (event H).

Definition ret {W H A} (a : A) : M W H A := fun w => (a, w, []).

Definition bind {W H A B} (m : M W H A) (f : A -> M W H B) : M W H B :=
  fun w =>
    let '(a, w1, e1) := m w in
    let '(b, w2, e2) := f a w1 in
    (b, w2, e1 ++ e2).

Declare Scope prop_scope.
Delimit Scope prop_scope with prop.
Notation "x <- c ;; k" := (bind c (fun x => k))
  (at level 100, c at next level, right associativity) : prop_scope.
Notation "c ;;; k" := (bind c (fun _ => k))
  (at level 100, right associativity) : prop_scope.
Local Open Scope prop_scope.

(** The result, the final state and the events of a run. *)
Definition result {A W H} (r : A * W * list (event H)) : A := fst (fst r).
Definition final {A W H} (r : A * W * list (event H)) : W := snd (fst r).
Definition events {A W H} (r : A * W * list (event H)) : list (event H) := snd r.

(** The two external collaborators, as the source calls them.  The
    functions reached through the pointers that [Initialize] resolves
    ([system_property_find] for ["__system_property_find"], and so on) and
    the ones of the same name linked directly are one operation here.
    [system_property_read_callback] is [None] on a platform that does not
    export it: the source tests the pointer. *)
Class LiveStore (W H : Type) : Type := {
  system_property_find : string -> W -> option H;
  system_property_read : H -> W -> string * string;
  system_property_read_callback : option (H -> W -> string * string);
  system_property_foreach : W -> list H;
  system_property_add : string -> nat -> string -> nat -> W -> Z * W;
  system_property_update : H -> string -> nat -> W -> Z * W;
  system_property_delete : string -> bool -> W -> Z * W;
  system_property_set : string -> string -> W -> Z * W;
  system_property_get_context : string -> W -> option string;
  system_properties_init : W -> Z * W
}.

Class PersistStore (W : Type) : Type := {
  persist_getprop : string -> W -> string;
  persist_deleteprop : string -> W -> bool * W;
  persist_getprops : W -> list (string * string)
}.

(** Modelled from the spec: [parse_prop_file] is declared in base.hpp,
    which is not part of the sources at hand.  The design document has it
    parse the file into an ordered sequence of (name, value) pairs;
    [prop_file_entries] is that sequence. *)
Class PropFiles (W : Type) : Type := {
  prop_file_entries : string -> W -> list (string * string)
}.

(** [struct prop_cb]: an object with a virtual [exec(name, value)], here
    acting on the state [S] it holds a reference to. *)
Record prop_cb (S : Type) : Type := { exec : string -> string -> S -> S }.
Arguments exec {S} p name value acc.

(** [prop_to_string::exec]: [val = value]. *)
Definition prop_to_string : prop_cb string :=
  {| exec := fun _ value _ => value |}.

(** Modelled from the spec: [prop_list] and [prop_collector] are declared
    in prop.hpp, which is not part of the sources at hand.  The design
    document describes the list as an ordered mapping with unique keys
    that keeps insertion order, in which a name already present is
    neither duplicated nor overwritten. *)
Definition prop_list : Type := list (string * string).

Fixpoint prop_list_mem (name : string) (l : prop_list) : bool :=
  match l with
  | [] => false
  | (k, _) :: rest => if String.eqb k name then true else prop_list_mem name rest
  end.

Definition prop_list_insert (name value : string) (l : prop_list) : prop_list :=
  if prop_list_mem name l then l else l ++ [(name, value)].

Definition prop_collector : prop_cb prop_list :=
  {| exec := prop_list_insert |}.

(** [ptr ?: ""]. *)
Definition or_empty (p : option string) : string :=
  match p with
  | Some s => s
  | None => ""
  end.

Definition newline : string := String (ascii_of_nat 10) "".

(** ** The operations of resetprop.cpp *)

Section Resetprop.

Context {W H : Type} {live : LiveStore W H} {persist : PersistStore W}
        {files : PropFiles W}.

Local Notation "'Comp'" := (M W H).

(** *** One computation per adapter call *)

Definition sys_find (name : string) : Comp (option H) :=
  fun w => (system_property_find name w, w, [SysFind name]).

Definition sys_add (name : string) (namelen : nat) (value : string) (valuelen : nat)
  : Comp Z :=
  fun w => let '(ret, w') := system_property_add name namelen value valuelen w in
           (ret, w', [SysAdd name value]).

Definition sys_update (pi : H) (value : string) (len : nat) : Comp Z :=
  fun w => let '(ret, w') := system_property_update pi value len w in
           (ret, w', [SysUpdate pi value]).

Definition sys_delete (name : string) (prune : bool) : Comp Z :=
  fun w => let '(ret, w') := system_property_delete name prune w in
           (ret, w', [SysDelete name prune]).

Definition sys_set (name value : string) : Comp Z :=
  fun w => let '(ret, w') := system_property_set name value w in
           (ret, w', [SysSet name value]).

Definition sys_get_context (name : string) : Comp (option string) :=
  fun w => (system_property_get_context name w, w, [SysGetContext name]).

Definition sys_init : Comp Z :=
  fun w => let '(ret, w') := system_properties_init w in (ret, w', [SysInit]).

Definition dlsym (symbol : string) : Comp unit :=
  fun w => (tt, w, [Dlsym symbol]).

Definition persist_get (name : string) : Comp string :=
  fun w => (persist_getprop name w, w, [PersistGet name]).

Definition persist_delete (name : string) : Comp bool :=
  fun w => let '(ok, w') := persist_deleteprop name w in
           (ok, w', [PersistDelete name]).

Definition printf (line : string) : Comp unit :=
  fun w => (tt, w, [Printf line]).

(** *** read_prop_with_cb *)

(** What the platform hands to the callback for the handle [pi]: through
    [system_property_read_callback] when the platform has it, through the
    buffers filled by [system_property_read] otherwise. *)
Definition read_prop_with_cb {S : Type} (pi : H) (cb : prop_cb S) (acc : S) : Comp S :=
  match system_property_read_callback with
  | Some read_callback =>
      fun w => let '(name, value) := read_callback pi w in
               (exec cb name value acc, w, [SysReadCallback pi])
  | None =>
      fun w => let '(name, value) := system_property_read pi w in
               (exec cb name value acc, w, [SysRead pi])
  end.

(** *** set_prop *)

Definition set_prop (name value : string) (flags : PropFlags.t) : Comp Z :=
  if negb (check_legal_property_name name) then ret 1%Z
  else
    pi <- sys_find name ;;
    (* Always delete existing read-only properties *)
    pi <- match pi with
          | Some h =>
              if str_starts name "ro." then
                (* Skip pruning nodes as we will add it back ASAP *)
                (sys_delete name false ;;; ret None)
              else ret (Some h)
          | None => ret None
          end ;;
    match pi with
    | Some h =>
        if isSkipSvc flags then sys_update h value (strlen value)
        else sys_set name value
    | None =>
        if isSkipSvc flags then sys_add name (strlen name) value (strlen value)
        else sys_set name value
    end.

(** *** get_prop *)

Definition get_prop (name : string) (flags : PropFlags.t) : Comp string :=
  if negb (check_legal_property_name name) then ret ""
  else if isContext flags then
    val <- sys_get_context name ;;
    ret (or_empty val)
  else
    pi <- sys_find name ;;
    match pi with
    | None => ret ""
    | Some pi =>
        val <- read_prop_with_cb pi prop_to_string "" ;;
        if empty val && isPersist flags && str_starts name "persist." then
          persist_get name
        else ret val
    end.

(** *** print_props *)

(** [system_property_foreach(callback, cookie)]: the callback runs on each
    handle of the live table, in the table's order. *)
Fixpoint foreach_handle {S : Type} (callback : H -> S -> Comp S)
  (handles : list H) (acc : S) : Comp S :=
  match handles with
  | [] => ret acc
  | pi :: rest => acc' <- callback pi acc ;; foreach_handle callback rest acc'
  end.

Definition sys_foreach {S : Type} (callback : H -> S -> Comp S) (acc : S) : Comp S :=
  fun w =>
    let '(acc', w', ev) := foreach_handle callback (system_property_foreach w) acc w in
    (acc', w', SysForeach :: ev).

(** [persist_getprops(cb)]: [cb->exec] runs on each persisted pair, in the
    persisted store's order. *)
Definition persist_foreach {S : Type} (cb : prop_cb S) (acc : S) : Comp S :=
  fun w =>
    (fold_left (fun a kv => exec cb (fst kv) (snd kv) a) (persist_getprops w) acc,
     w, [PersistForeach]).

(** The body of [for (auto &[key, val] : list)]. *)
Definition print_entry (flags : PropFlags.t) (entry : string * string) : Comp unit :=
  let '(key, val) := entry in
  v <- (if isContext flags then
          c <- sys_get_context key ;; ret (or_empty c)
        else ret val) ;;
  printf ("[" ++ key ++ "]: [" ++ v ++ "]" ++ newline)%string.

Fixpoint print_entries (flags : PropFlags.t) (l : prop_list) : Comp unit :=
  match l with
  | [] => ret tt
  | entry :: rest => print_entry flags entry ;;; print_entries flags rest
  end.

Definition print_props (flags : PropFlags.t) : Comp unit :=
  list <- sys_foreach (fun pi acc => read_prop_with_cb pi prop_collector acc) [] ;;
  list <- (if isPersist flags then persist_foreach prop_collector list
           else ret list) ;;
  print_entries flags list.

(** *** delete_prop *)

Definition delete_prop (name : string) (flags : PropFlags.t) : Comp Z :=
  if negb (check_legal_property_name name) then ret 1%Z
  else
    ret0 <- sys_delete name true ;;
    if isPersist flags && str_starts name "persist." then
      ok <- persist_delete name ;;
      if ok then ret 0%Z else ret ret0
    else ret ret0.

(** *** load_file *)

(** Modelled from the spec: [parse_prop_file], declared in base.hpp, hands
    the pairs of the file to the callback in file order; as the callback
    returns a [bool], a [false] is taken to end the parse. *)
Fixpoint parse_entries (entries : list (string * string))
  (cb : string -> string -> Comp bool) : Comp unit :=
  match entries with
  | [] => ret tt
  | (key, val) :: rest =>
      continue <- cb key val ;;
      if continue then parse_entries rest cb else ret tt
  end.

Definition parse_prop_file (filename : string)
  (cb : string -> string -> Comp bool) : Comp unit :=
  fun w => parse_entries (prop_file_entries filename w) cb w.

(** The lambda handed to [parse_prop_file]. *)
Definition load_file_cb (flags : PropFlags.t) (key val : string) : Comp bool :=
  set_prop key val flags ;;; ret true.

Definition load_file (filename : string) (flags : PropFlags.t) : Comp unit :=
  parse_prop_file filename (load_file_cb flags).

(** *** Initialize and InitOnce *)

(** The constructor of [struct Initialize]: five [DLOAD]s, then
    [__system_properties_init], whose status is only logged. *)
Definition Initialize : Comp unit :=
  dlsym "__system_property_set" ;;;
  dlsym "__system_property_read" ;;;
  dlsym "__system_property_find" ;;;
  dlsym "__system_property_read_callback" ;;;
  dlsym "__system_property_foreach" ;;;
  sys_init ;;;
  ret tt.

(** [struct Initialize init;] declares a local object of automatic
    storage: its constructor runs each time the body is entered. *)
Definition InitOnce : Comp unit := Initialize.

(** *** resetprop_main *)

(** The variables the option parser works on.  Next to them the parser
    carries [args], which is [argv] as it advances, so that [argc] is its
    length. *)
Record cli : Type := {
  cli_flags : PropFlags.t;
  prop_file : option string;
  prop_to_rm : option string;
  stop_parse : bool
}.

(** [consume_next(val)]: [usage] unless exactly the option and one more
    argument are left; otherwise [val = argv[1]; stop_parse = true].
    [None] stands for the call of [usage], which ends the process. *)
Definition consume_next (args : list string) : option string :=
  match args with
  | [_; next] => Some next
  | _ => None
  end.

(** The [for (int idx = 1; true; ++idx)] loop on one argument [arg];
    [chars] is what is left of [arg] from index [idx] on, whose end is the
    ['\0'] case. *)
Fixpoint parse_option (arg : string) (args : list string) (chars : string) (st : cli)
  : option cli :=
  match chars with
  | EmptyString => Some st
  | String c chars' =>
      if char_eq c "-" then
        if String.eqb arg "--file" then
          match consume_next args with
          | Some next => Some {| cli_flags := cli_flags st; prop_file := Some next;
                                 prop_to_rm := prop_to_rm st; stop_parse := true |}
          | None => None
          end
        else if String.eqb arg "--delete" then
          match consume_next args with
          | Some next => Some {| cli_flags := cli_flags st; prop_file := prop_file st;
                                 prop_to_rm := Some next; stop_parse := true |}
          | None => None
          end
        else None
      else if char_eq c "d" then
        match consume_next args with
        | Some next =>
            parse_option arg args chars'
              {| cli_flags := cli_flags st; prop_file := prop_file st;
                 prop_to_rm := Some next; stop_parse := true |}
        | None => None
        end
      else if char_eq c "f" then
        match consume_next args with
        | Some next =>
            parse_option arg args chars'
              {| cli_flags := cli_flags st; prop_file := Some next;
                 prop_to_rm := prop_to_rm st; stop_parse := true |}
        | None => None
        end
      else if char_eq c "n" then
        parse_option arg args chars'
          {| cli_flags := setSkipSvc (cli_flags st); prop_file := prop_file st;
             prop_to_rm := prop_to_rm st; stop_parse := stop_parse st |}
      else if char_eq c "p" then
        parse_option arg args chars'
          {| cli_flags := setPersist (cli_flags st); prop_file := prop_file st;
             prop_to_rm := prop_to_rm st; stop_parse := stop_parse st |}
      else if char_eq c "v" then
        parse_option arg args chars' st
      else if char_eq c "Z" then
        parse_option arg args chars'
          {| cli_flags := setContext (cli_flags st); prop_file := prop_file st;
             prop_to_rm := prop_to_rm st; stop_parse := stop_parse st |}
      else if char_eq c Ascii.zero then Some st
      else None
  end.

(** [while (argc && argv[0][0] == '-')]: yields the parsed variables and
    the arguments left over. *)
Fixpoint parse_options (args : list string) (st : cli) : option (cli * list string) :=
  match args with
  | [] => Some (st, [])
  | arg :: rest =>
      if char_eq (char_at arg 0) "-" then
        match parse_option arg args (String.substring 1 (strlen arg - 1) arg)
                {| cli_flags := cli_flags st; prop_file := prop_file st;
                   prop_to_rm := prop_to_rm st; stop_parse := false |} with
        | Some st' =>
            if stop_parse st' then Some (st', rest) else parse_options rest st'
        | None => None
        end
      else Some (st, args)
  end.

(** [resetprop_main(argc, argv)], with [argv] the list of its [argc]
    strings.  The result is the status the process ends with: what [main]
    returns, or the 1 of [usage]. *)
Definition resetprop_main (argv : list string) : Comp Z :=
  match parse_options (tl argv)
          {| cli_flags := PropFlags.init; prop_file := None; prop_to_rm := None;
             stop_parse := false |} with
  | None => ret 1%Z
  | Some (st, args) =>
      InitOnce ;;;
      match prop_to_rm st with
      | Some name => delete_prop name (cli_flags st)
      | None =>
          match prop_file st with
          | Some filename => load_file filename (cli_flags st) ;;; ret 0%Z
          | None =>
              match args with
              | [] => print_props (cli_flags st) ;;; ret 0%Z
              | [name] =>
                  val <- get_prop name (cli_flags st) ;;
                  if empty val then ret 1%Z
                  else printf (val ++ newline)%string ;;; ret 0%Z
              | [name; value] => set_prop name value (cli_flags st)
              | _ => ret 1%Z
              end
          end
      end
  end.

(** *** High-level APIs *)

Definition get_prop_api (name : string) (persist_flag : bool) : Comp string :=
  InitOnce ;;;
  get_prop name (if persist_flag then setPersist PropFlags.init else PropFlags.init).

Definition delete_prop_api (name : string) (persist_flag : bool) : Comp Z :=
  InitOnce ;;;
  delete_prop name (if persist_flag then setPersist PropFlags.init else PropFlags.init).

Definition set_prop_api (name value : string) (skip_svc : bool) : Comp Z :=
  InitOnce ;;;
  set_prop name value (if skip_svc then setSkipSvc PropFlags.init else PropFlags.init).

Definition load_prop_file (filename : string) (skip_svc : bool) : Comp unit :=
  InitOnce ;;;
  load_file filename (if skip_svc then setSkipSvc PropFlags.init else PropFlags.init).

(** *** A process: calls of the public entry points, one after another *)

Inductive entry_call : Type :=
| CallMain (argv : list string)
| CallGet (name : string) (persist_flag : bool)
| CallDelete (name : string) (persist_flag : bool)
| CallSet (name value : string) (skip_svc : bool)
| CallLoad (filename : string) (skip_svc : bool).

Definition run_call (c : entry_call) : Comp unit :=
  match c with
  | CallMain argv => resetprop_main argv ;;; ret tt
  | CallGet name p => get_prop_api name p ;;; ret tt
  | CallDelete name p => delete_prop_api name p ;;; ret tt
  | CallSet name value s => set_prop_api name value s ;;; ret tt
  | CallLoad filename s => load_prop_file filename s
  end.

Fixpoint run_calls (cs : list entry_call) : Comp unit :=
  match cs with
  | [] => ret tt
  | c :: rest => run_call c ;;; run_calls rest
  end.

End Resetprop.

(** How many times the initialisation ran. *)
Definition init_count {H} (ev : list (event H)) : nat :=
  List.length (filter is_init ev).

(** ** What the statements below observe *)

Section Observations.

Context {W H : Type} {live : LiveStore W H} {persist : PersistStore W}
        {files : PropFiles W}.

(** The (name, value) the platform hands back for a handle, whichever of
    its two read functions serves. *)
Definition live_read (pi : H) (w : W) : string * string :=
  match system_property_read_callback with
  | Some read_callback => read_callback pi w
  | None => system_property_read pi w
  end.

(** The adapter call behind [live_read]. *)
Definition read_event (pi : H) : event H :=
  match system_property_read_callback with
  | Some _ => SysReadCallback pi
  | None => SysRead pi
  end.

(** The entries of the live table, in the order [system_property_foreach]
    visits them. *)
Definition live_entries (w : W) : list (string * string) :=
  map (fun pi => live_read pi w) (system_property_foreach w).

(** What [prop_collector] holds after it was handed [entries] in turn. *)
Definition collect (acc : prop_list) (entries : list (string * string)) : prop_list :=
  fold_left (fun a kv => exec prop_collector (fst kv) (snd kv) a) entries acc.

(** What [print_props] shows for an entry: its value, or under
    want-context the security context of its name. *)
Definition shown (flags : PropFlags.t) (w : W) (entry : string * string)
  : string * string :=
  (fst entry,
   if isContext flags then or_empty (system_property_get_context (fst entry) w)
   else snd entry).

(** The entries of the persisted store whose name the live table lacks. *)
Definition persisted_only (w : W) : list (string * string) :=
  filter (fun kv => negb (prop_list_mem (fst kv) (live_entries w))) (persist_getprops w).

(** "Invokes set(name, value, flags) for each pair in file order,
    continuing past individual failures": the statuses are dropped. *)
Fixpoint set_each (entries : list (string * string)) (flags : PropFlags.t)
  : M W H unit :=
  match entries with
  | [] => ret tt
  | (key, val) :: rest => set_prop key val flags ;;; set_each rest flags
  end.

(** Whether a call of an entry point gets as far as [InitOnce]: all do,
    but a [resetprop_main] that [usage] ends while parsing. *)
Definition reaches_init (c : entry_call) : bool :=
  match c with
  | CallMain argv =>
      match parse_options (tl argv)
              {| cli_flags := PropFlags.init; prop_file := None; prop_to_rm := None;
                 stop_parse := false |} with
      | Some _ => true
      | None => false
      end
  | _ => true
  end.

End Observations.

(** The line [print_props] writes for an entry. *)
Definition format_entry (entry : string * string) : string :=
  ("[" ++ fst entry ++ "]: [" ++ snd entry ++ "]" ++ newline)%string.

(** The lines written to standard output, in order. *)
Definition stdout {H} (ev : list (event H)) : list string :=
  flat_map (fun e => match e with Printf line => [line] | _ => [] end) ev.

(** Writes that go through the property service. *)
Definition is_service_write {H} (e : event H) : bool :=
  match e with
  | SysSet _ _ => true
  | _ => false
  end.

Definition is_update {H} (e : event H) : bool :=
  match e with
  | SysUpdate _ _ => true
  | _ => false
  end.

(** ** A reference implementation of the collaborators

    A small live table and persisted store, enough to run the operations
    on concrete states: both are lists of (name, value) pairs in the order
    of their enumeration, and the handle of a live entry is its name. *)

Module RefStore.

Record world : Type := {
  live_props : list (string * string);
  persist_props : list (string * string);
  prop_files : list (string * list (string * string))
}.

Fixpoint lookup {A : Type} (name : string) (l : list (string * A)) : option A :=
  match l with
  | [] => None
  | (k, v) :: rest => if String.eqb k name then Some v else lookup name rest
  end.

Fixpoint remove {A : Type} (name : string) (l : list (string * A)) : list (string * A) :=
  match l with
  | [] => []
  | (k, v) :: rest =>
      if String.eqb k name then remove name rest else (k, v) :: remove name rest
  end.

Fixpoint replace (name value : string) (l : list (string * string)) : list (string * string) :=
  match l with
  | [] => []
  | (k, v) :: rest =>
      if String.eqb k name then (k, value) :: rest else (k, v) :: replace name value rest
  end.

Definition with_live (w : world) (l : list (string * string)) : world :=
  {| live_props := l; persist_props := persist_props w; prop_files := prop_files w |}.

Definition with_persist (w : world) (l : list (string * string)) : world :=
  {| live_props := live_props w; persist_props := l; prop_files := prop_files w |}.

Definition find (name : string) (w : world) : option string :=
  match lookup name (live_props w) with
  | Some _ => Some name
  | None => None
  end.

Definition read (pi : string) (w : world) : string * string :=
  (pi, or_empty (lookup pi (live_props w))).

Definition add (name : string) (_ : nat) (value : string) (_ : nat) (w : world) : Z * world :=
  match lookup name (live_props w) with
  | Some _ => ((-1)%Z, w)
  | None => (0%Z, with_live w (live_props w ++ [(name, value)]))
  end.

Definition update (pi value : string) (_ : nat) (w : world) : Z * world :=
  match lookup pi (live_props w) with
  | Some _ => (0%Z, with_live w (replace pi value (live_props w)))
  | None => ((-1)%Z, w)
  end.

Definition delete (name : string) (_ : bool) (w : world) : Z * world :=
  match lookup name (live_props w) with
  | Some _ => (0%Z, with_live w (remove name (live_props w)))
  | None => ((-1)%Z, w)
  end.

Definition set (name value : string) (w : world) : Z * world :=
  match lookup name (live_props w) with
  | Some _ => (0%Z, with_live w (replace name value (live_props w)))
  | None => (0%Z, with_live w (live_props w ++ [(name, value)]))
  end.

Definition context (name : string) (_ : world) : option string :=
  Some "u:object_r:default_prop:s0".

Definition persist_delete (name : string) (w : world) : bool * world :=
  match lookup name (persist_props w) with
  | Some _ => (true, with_persist w (remove name (persist_props w)))
  | None => (false, w)
  end.

#[export] Instance live_store : LiveStore world string := {|
  system_property_find := find;
  system_property_read := read;
  system_property_read_callback := Some read;
  system_property_foreach := fun w => map fst (live_props w);
  system_property_add := add;
  system_property_update := update;
  system_property_delete := delete;
  system_property_set := set;
  system_property_get_context := context;
  system_properties_init := fun w => (0%Z, w)
|}.

#[export] Instance persist_store : PersistStore world := {|
  persist_getprop := fun name w => or_empty (lookup name (persist_props w));
  persist_deleteprop := persist_delete;
  persist_getprops := persist_props
|}.

#[export] Instance files : PropFiles world := {|
  prop_file_entries := fun filename w =>
    match lookup filename (prop_files w) with
    | Some entries => entries
    | None => []
    end
|}.

(** The states the examples run on. *)

Definition empty_world : world :=
  {| live_props := []; persist_props := []; prop_files := [] |}.

(** Live {A -> 1, B -> 2}, persisted {B -> 9, C -> 3}. *)
Definition abc_world : world :=
  {| live_props := [("A", "1"); ("B", "2")];
     persist_props := [("B", "9"); ("C", "3")];
     prop_files := [] |}.

(** A read-only property and an ordinary one in the live table. *)
Definition ro_world : world :=
  {| live_props := [("ro.build.type", "user"); ("sys.usb.config", "mtp")];
     persist_props := [];
     prop_files := [] |}.

(** [persist.sys.locale] lives in the persisted store only. *)
Definition persisted_only_world : world :=
  {| live_props := [("sys.usb.config", "mtp")];
     persist_props := [("persist.sys.locale", "en-US")];
     prop_files := [] |}.

(** The same, with an empty live value for [persist.sys.locale]. *)
Definition empty_live_world : world :=
  {| live_props := [("sys.usb.config", "mtp"); ("persist.sys.locale", "")];
     persist_props := [("persist.sys.locale", "en-US")];
     prop_files := [] |}.

(** [debug.level] is absent from the one, present and empty in the other. *)
Definition absent_world : world :=
  {| live_props := [("sys.usb.config", "mtp")];
     persist_props := [];
     prop_files := [] |}.

Definition present_empty_world : world :=
  {| live_props := [("sys.usb.config", "mtp"); ("debug.level", "")];
     persist_props := [];
     prop_files := [] |}.

(** A file of three lines whose second name is illegal. *)
Definition three_lines : list (string * string) :=
  [("a.b", "1"); ("bad..name", "2"); ("c.d", "3")].

Definition file_world : world :=
  {| live_props := [];
     persist_props := [];
     prop_files := [("/system/build.prop", three_lines)] |}.

End RefStore.

(** ** Further observations *)

(** Calls that change a store. *)
Definition is_write {H} (e : event H) : bool :=
  match e with
  | SysAdd _ _ | SysUpdate _ _ | SysDelete _ _ | SysSet _ _ | PersistDelete _ => true
  | _ => false
  end.

Definition is_delete {H} (e : event H) : bool :=
  match e with
  | SysDelete _ _ => true
  | _ => false
  end.

Definition is_add {H} (e : event H) : bool :=
  match e with
  | SysAdd _ _ => true
  | _ => false
  end.

Definition is_find {H} (e : event H) : bool :=
  match e with
  | SysFind _ => true
  | _ => false
  end.

Definition is_context_call {H} (e : event H) : bool :=
  match e with
  | SysGetContext _ => true
  | _ => false
  end.

(** The events of one run of the constructor of [Initialize]. *)
Definition init_events {H} : list (event H) :=
  [Dlsym "__system_property_set"; Dlsym "__system_property_read";
   Dlsym "__system_property_find"; Dlsym "__system_property_read_callback";
   Dlsym "__system_property_foreach"; SysInit].

(** Whether the live table holds an entry of that name. *)
Definition has_entry {W H} {live : LiveStore W H} (name : string) (w : W) : bool :=
  match system_property_find name w with
  | Some _ => true
  | None => false
  end.

(** The option letters that take no argument: [-n], [-p], [-v], [-Z]. *)
Definition flag_letter (c : ascii) : bool :=
  char_eq c "n" || char_eq c "p" || char_eq c "v" || char_eq c "Z".

Definition flag_letters (letters : string) : bool :=
  forallb flag_letter (list_ascii_of_string letters).

(** Whether the letter [c] occurs in [letters]. *)
Fixpoint has_letter (c : ascii) (letters : string) : bool :=
  match letters with
  | EmptyString => false
  | String c' rest => char_eq c' c || has_letter c rest
  end.

(** The flag word after the letters of the usage text were applied to it
    from left to right: [n] for skip-service, [p] for use-persisted, [Z]
    for want-context. *)
Fixpoint set_letters (letters : string) (flags : PropFlags.t) : PropFlags.t :=
  match letters with
  | EmptyString => flags
  | String c rest =>
      set_letters rest
        (if char_eq c "n" then setSkipSvc flags
         else if char_eq c "p" then setPersist flags
         else if char_eq c "Z" then setContext flags
         else flags)
  end.

(** The parser's variables at the start of [resetprop_main]. *)
Definition cli_init : cli :=
  {| cli_flags := PropFlags.init; prop_file := None; prop_to_rm := None;
     stop_parse := false |}.

(** * Properties *)

(** ** Strings and their characters *)

Lemma get_nth_error (s : string) (i : nat) :
  String.get i s = nth_error (list_ascii_of_string s) i.
Proof.
  revert i; induction s as [|c s IH]; intros [|i]; simpl; auto.
Qed.

Lemma strlen_list (s : string) : strlen s = List.length (list_ascii_of_string s).
Proof.
  unfold strlen; induction s as [|c s IH]; simpl; auto.
Qed.

Lemma list_ascii_of_append (s1 s2 : string) :
  list_ascii_of_string (s1 ++ s2)%string
  = list_ascii_of_string s1 ++ list_ascii_of_string s2.
Proof.
  induction s1 as [|c s1 IH]; simpl; [reflexivity | now rewrite IH].
Qed.

Lemma string_of_list_ascii_app (l1 l2 : list ascii) :
  string_of_list_ascii (l1 ++ l2)
  = (string_of_list_ascii l1 ++ string_of_list_ascii l2)%string.
Proof.
  induction l1 as [|c l1 IH]; simpl; [reflexivity | now rewrite IH].
Qed.

Lemma string_append_assoc (s1 s2 s3 : string) :
  (s1 ++ (s2 ++ s3))%string = ((s1 ++ s2) ++ s3)%string.
Proof.
  induction s1 as [|c s1 IH]; simpl; [reflexivity | now rewrite IH].
Qed.

(** A string splits where its list of characters does. *)
Lemma string_split (s : string) (l1 l2 : list ascii) :
  list_ascii_of_string s = l1 ++ l2 ->
  s = (string_of_list_ascii l1 ++ string_of_list_ascii l2)%string.
Proof.
  intros E. rewrite <- string_of_list_ascii_app, <- E.
  symmetry; apply string_of_list_ascii_of_string.
Qed.

Lemma char_at_in_range (name : string) (i : nat) :
  i < strlen name ->
  nth_error (list_ascii_of_string name) i = Some (char_at name i).
Proof.
  intros Hi. unfold char_at. rewrite get_nth_error.
  destruct (nth_error (list_ascii_of_string name) i) eqn:E; [reflexivity|].
  apply nth_error_None in E. rewrite strlen_list in Hi. lia.
Qed.

Lemma char_at_middle (front : string) (c : ascii) (rest : string) :
  char_at (front ++ String c rest) (strlen front) = c.
Proof.
  unfold char_at. rewrite get_nth_error, list_ascii_of_append, strlen_list.
  rewrite nth_error_app2 by lia. now rewrite Nat.sub_diag.
Qed.

Lemma strlen_append (s1 s2 : string) : strlen (s1 ++ s2) = strlen s1 + strlen s2.
Proof.
  rewrite !strlen_list, list_ascii_of_append. apply length_app.
Qed.

Lemma char_eq_true (a b : ascii) : char_eq a b = true <-> a = b.
Proof. apply Ascii.eqb_eq. Qed.

Lemma char_eq_false (a b : ascii) : char_eq a b = false <-> a <> b.
Proof. apply Ascii.eqb_neq. Qed.

Lemma char_le_true (a b : ascii) :
  char_le a b = true <-> nat_of_ascii a <= nat_of_ascii b.
Proof. apply Nat.leb_le. Qed.

(** The code points the validator compares with. *)
Ltac code_points :=
  change (nat_of_ascii "a") with 97 in *;
  change (nat_of_ascii "z") with 122 in *;
  change (nat_of_ascii "A") with 65 in *;
  change (nat_of_ascii "Z") with 90 in *;
  change (nat_of_ascii "0") with 48 in *;
  change (nat_of_ascii "9") with 57 in *.

(** ** The name validator *)

(** The character test of the loop body, apart from the rule on dots. *)
Lemma legal_at_allowed (name : string) (i : nat) :
  legal_at name i = true ->
  NameGrammar.allowed (char_at name i).
Proof.
  unfold legal_at, NameGrammar.allowed, NameGrammar.is_letter,
    NameGrammar.is_digit, NameGrammar.is_punct.
  set (c := char_at name i).
  destruct (char_eq c ".") eqn:Edot.
  { apply char_eq_true in Edot. intros _. right; right. simpl; auto. }
  destruct (char_eq c "_") eqn:E1.
  { apply char_eq_true in E1. intros _. right; right. simpl; auto 6. }
  destruct (char_eq c "-") eqn:E2.
  { apply char_eq_true in E2. intros _. right; right. simpl; auto. }
  destruct (char_eq c "@") eqn:E3.
  { apply char_eq_true in E3. intros _. right; right. simpl; auto. }
  destruct (char_eq c ":") eqn:E4.
  { apply char_eq_true in E4. intros _. right; right. simpl; auto 6. }
  simpl.
  destruct (char_le "a" c && char_le c "z") eqn:Elow.
  { apply andb_prop in Elow as [L1 L2]. apply char_le_true in L1, L2.
    code_points. intros _. left; right. lia. }
  destruct (char_le "A" c && char_le c "Z") eqn:Eup.
  { apply andb_prop in Eup as [L1 L2]. apply char_le_true in L1, L2.
    code_points. intros _. left; left. lia. }
  destruct (char_le "0" c && char_le c "9") eqn:Edig.
  { apply andb_prop in Edig as [L1 L2]. apply char_le_true in L1, L2.
    code_points. intros _. right; left. lia. }
  discriminate.
Qed.

Lemma legal_at_no_double_dot (name : string) (i : nat) :
  legal_at name i = true ->
  char_at name i = NameGrammar.dot ->
  char_at name (i - 1) <> NameGrammar.dot.
Proof.
  unfold legal_at, NameGrammar.dot. intros Hl Hc. rewrite Hc in Hl. simpl in Hl.
  destruct (char_eq (char_at name (i - 1)) ".") eqn:E; [discriminate|].
  now apply char_eq_false in E.
Qed.

Lemma allowed_legal_at (name : string) (i : nat) :
  NameGrammar.allowed (char_at name i) ->
  (char_at name i = NameGrammar.dot -> char_at name (i - 1) <> NameGrammar.dot) ->
  legal_at name i = true.
Proof.
  unfold legal_at, NameGrammar.allowed, NameGrammar.is_letter,
    NameGrammar.is_digit, NameGrammar.is_punct, NameGrammar.dot.
  set (c := char_at name i). intros Hc Hdot.
  destruct (char_eq c ".") eqn:Edot.
  { apply char_eq_true in Edot. apply Hdot in Edot.
    apply char_eq_false in Edot. now rewrite Edot. }
  assert (Hle : forall a b, nat_of_ascii a <= nat_of_ascii b -> char_le a b = true)
    by (intros; now apply char_le_true).
  destruct Hc as [[Hup | Hlow] | [Hdig | Hp]].
  - assert (E : char_le "A" c && char_le c "Z" = true)
      by (rewrite !Hle; code_points; auto; lia).
    rewrite E. repeat match goal with |- context [if ?b then _ else _] =>
      destruct b; try reflexivity end.
  - assert (E : char_le "a" c && char_le c "z" = true)
      by (rewrite !Hle; code_points; auto; lia).
    rewrite E. repeat match goal with |- context [if ?b then _ else _] =>
      destruct b; try reflexivity end.
  - assert (E : char_le "0" c && char_le c "9" = true)
      by (rewrite !Hle; code_points; auto; lia).
    rewrite E. repeat match goal with |- context [if ?b then _ else _] =>
      destruct b; try reflexivity end.
  - simpl in Hp.
    destruct Hp as [Hp | [Hp | [Hp | [Hp | [Hp | []]]]]]; subst c;
      rewrite <- Hp in *; try discriminate; reflexivity.
Qed.

(** The loop accepts exactly when its body accepts every index it visits. *)
Lemma legal_from_true (name : string) (todo i : nat) :
  legal_from name i todo = true <->
  (forall j, i <= j < i + todo -> legal_at name j = true).
Proof.
  revert i; induction todo as [|todo IH]; intros i; simpl.
  - split; [intros _ j Hj; lia | reflexivity].
  - destruct (legal_at name i) eqn:E.
    + rewrite IH. split; intros Hall j Hj.
      * destruct (Nat.eq_dec j i) as [->|Hne]; [exact E | apply Hall; lia].
      * apply Hall; lia.
    + split; [discriminate | intros Hall].
      rewrite <- E. apply Hall; lia.
Qed.

(** What the validator has checked when it answers [true]. *)
Lemma check_legal_inv (name : string) :
  check_legal_property_name name = true <->
  1 <= strlen name /\
  char_at name 0 <> NameGrammar.dot /\
  char_at name (strlen name - 1) <> NameGrammar.dot /\
  (forall j, j < strlen name -> legal_at name j = true).
Proof.
  unfold check_legal_property_name, NameGrammar.dot.
  destruct (strlen name <? 1)%nat eqn:Elen.
  { apply Nat.ltb_lt in Elen. split; [discriminate | intros [Hlen _]; lia]. }
  apply Nat.ltb_ge in Elen.
  destruct (char_eq (char_at name 0) ".") eqn:Efirst.
  { apply char_eq_true in Efirst. split; [discriminate | now intros (_ & Hf & _)]. }
  apply char_eq_false in Efirst.
  destruct (char_eq (char_at name (strlen name - 1)) ".") eqn:Elast.
  { apply char_eq_true in Elast. split; [discriminate | now intros (_ & _ & Hl & _)]. }
  apply char_eq_false in Elast.
  rewrite legal_from_true. split.
  - intros Hall. repeat split; auto. intros j Hj. apply Hall; lia.
  - intros (_ & _ & _ & Hall) j Hj. apply Hall; lia.
Qed.

Lemma check_legal_sound (name : string) :
  check_legal_property_name name = true -> NameGrammar.legal name.
Proof.
  intros Hc. apply check_legal_inv in Hc as (Hlen & Hfirst & Hlast & Hall).
  constructor.
  - intros ->. simpl in Hlen. lia.
  - intros rest ->. now apply Hfirst.
  - intros front ->. apply Hlast.
    rewrite strlen_append. simpl.
    replace (strlen front + 1 - 1) with (strlen front) by lia.
    apply char_at_middle.
  - intros front rest ->.
    assert (Hin : S (strlen front) < strlen (front ++ String NameGrammar.dot
                                              (String NameGrammar.dot rest))).
    { rewrite strlen_append. simpl. lia. }
    apply Hall in Hin.
    apply legal_at_no_double_dot in Hin.
    + apply Hin. simpl. rewrite Nat.sub_0_r. apply char_at_middle.
    + change (String NameGrammar.dot (String NameGrammar.dot rest))
        with (String NameGrammar.dot "" ++ String NameGrammar.dot rest)%string.
      rewrite string_append_assoc.
      replace (S (strlen front)) with (strlen (front ++ String NameGrammar.dot ""))
        by (rewrite strlen_append; simpl; lia).
      apply char_at_middle.
  - apply Forall_forall. intros c Hc.
    apply In_nth_error in Hc as [j Hj].
    assert (Hlt : j < strlen name).
    { rewrite strlen_list. apply nth_error_Some. congruence. }
    rewrite (char_at_in_range _ _ Hlt) in Hj. injection Hj as <-.
    apply legal_at_allowed. now apply Hall.
Qed.

Lemma check_legal_complete (name : string) :
  NameGrammar.legal name -> check_legal_property_name name = true.
Proof.
  intros [Hne Hlead Htrail Hdouble Hallowed].
  apply check_legal_inv.
  assert (Hlen : 1 <= strlen name).
  { destruct name; [now elim Hne | simpl; lia]. }
  split; [exact Hlen|]. split; [|split].
  - destruct name as [|c rest]; [now elim Hne|].
    unfold char_at; simpl. intros ->. now apply (Hlead rest).
  - intros Hdot.
    assert (Hlt : strlen name - 1 < strlen name) by lia.
    pose proof (char_at_in_range _ _ Hlt) as Hnth. rewrite Hdot in Hnth.
    apply nth_error_split in Hnth as (l1 & l2 & Hsplit & Hl1).
    assert (l2 = []) as ->.
    { apply (f_equal (@List.length ascii)) in Hsplit.
      rewrite <- strlen_list, length_app in Hsplit. simpl in Hsplit.
      destruct l2; [reflexivity | simpl in Hsplit; lia]. }
    apply string_split in Hsplit. simpl in Hsplit.
    now apply (Htrail (string_of_list_ascii l1)).
  - intros j Hj.
    pose proof (char_at_in_range _ _ Hj) as Hnth.
    apply allowed_legal_at.
    + rewrite Forall_forall in Hallowed. apply Hallowed.
      eapply nth_error_In; eassumption.
    + intros Hdot Hprev.
      assert (Hpos : j <> 0).
      { intros ->. destruct name as [|c rest]; [now elim Hne|].
        unfold char_at in Hdot; simpl in Hdot. subst c. now apply (Hlead rest). }
      assert (Hj' : j - 1 < strlen name) by lia.
      pose proof (char_at_in_range _ _ Hj') as Hnth'. rewrite Hprev in Hnth'.
      apply nth_error_split in Hnth' as (l1 & l2 & Hsplit & Hl1).
      rewrite Hsplit in Hnth. rewrite nth_error_app2 in Hnth by lia.
      replace (j - List.length l1) with 1 in Hnth by lia.
      destruct l2 as [|c l2]; [discriminate|].
      simpl in Hnth. rewrite Hdot in Hnth. injection Hnth as ->.
      apply string_split in Hsplit. simpl in Hsplit.
      now apply (Hdouble (string_of_list_ascii l1) (string_of_list_ascii l2)).
Qed.

(** C6: [check_legal_property_name] answers [true] exactly for the names of
    the grammar: non-empty, no dot first or last, no two dots in a row,
    every character an ASCII letter, a digit or one of [. - @ : _].  It
    rejects the empty name, [.a], [a.] and [a..b], and accepts
    [a.b-c:d@e_f] and [persist.sys.locale]. *)
Theorem check_legal_property_name_correct :
  (forall name, check_legal_property_name name = true <-> NameGrammar.legal name) /\
  check_legal_property_name "" = false /\
  check_legal_property_name ".a" = false /\
  check_legal_property_name "a." = false /\
  check_legal_property_name "a..b" = false /\
  check_legal_property_name "a.b-c:d@e_f" = true /\
  check_legal_property_name "persist.sys.locale" = true.
Proof.
  split; [|repeat split; reflexivity].
  intros name; split; [apply check_legal_sound | apply check_legal_complete].
Qed.

(** ** The flag word *)

Lemma isSkipSvc_setPersist (flags : PropFlags.t) :
  isSkipSvc (setPersist flags) = isSkipSvc flags.
Proof.
  unfold isSkipSvc, setPersist. rewrite Z.land_lor_distr_l.
  change (Z.land (Z.shiftl 1 1) 1) with 0%Z. now rewrite Z.lor_0_r.
Qed.

Lemma isSkipSvc_setContext (flags : PropFlags.t) :
  isSkipSvc (setContext flags) = isSkipSvc flags.
Proof.
  unfold isSkipSvc, setContext. rewrite Z.land_lor_distr_l.
  change (Z.land (Z.shiftl 1 2) 1) with 0%Z. now rewrite Z.lor_0_r.
Qed.

Lemma isPersist_setPersist (flags : PropFlags.t) :
  isPersist (setPersist flags) = true.
Proof.
  unfold isPersist, setPersist. rewrite Z.land_lor_distr_l.
  change (Z.land (Z.shiftl 1 1) (Z.shiftl 1 1)) with 2%Z.
  destruct (Z.eqb_spec (Z.lor (Z.land flags (Z.shiftl 1 1)) 2) 0) as [E|]; [|reflexivity].
  apply Z.lor_eq_0_iff in E as [_ E]. discriminate.
Qed.

(** ** The operations, over any implementation of the collaborators *)

Section StoreFacts.

Context {W H : Type} {live : LiveStore W H} {persist : PersistStore W}
        {files : PropFiles W}.

(** Unfolds the computations down to the adapter functions. *)
Ltac run :=
  unfold bind, ret, sys_find, sys_add, sys_update, sys_delete, sys_set,
    sys_get_context, sys_init, dlsym, persist_get, persist_delete, printf;
  simpl.

Lemma read_prop_with_cb_run {S : Type} (pi : H) (cb : prop_cb S) (acc : S) (w : W) :
  read_prop_with_cb pi cb acc w
  = (exec cb (fst (live_read pi w)) (snd (live_read pi w)) acc, w, [read_event pi]).
Proof.
  unfold read_prop_with_cb, live_read, read_event.
  destruct system_property_read_callback as [rc|].
  - now destruct (rc pi w).
  - now destruct (system_property_read pi w).
Qed.

(** *** set_prop *)

(** The run of [set_prop] on a legal name, case by case. *)
Lemma set_prop_run (name value : string) (flags : PropFlags.t) (w : W) :
  check_legal_property_name name = true ->
  set_prop name value flags w =
  match system_property_find name w with
  | Some pi =>
      if str_starts name "ro." then
        let '(_, w1) := system_property_delete name false w in
        if isSkipSvc flags then
          let '(status, w2) := system_property_add name (strlen name) value (strlen value) w1 in
          (status, w2, [SysFind name; SysDelete name false; SysAdd name value])
        else
          let '(status, w2) := system_property_set name value w1 in
          (status, w2, [SysFind name; SysDelete name false; SysSet name value])
      else if isSkipSvc flags then
        let '(status, w1) := system_property_update pi value (strlen value) w in
        (status, w1, [SysFind name; SysUpdate pi value])
      else
        let '(status, w1) := system_property_set name value w in
        (status, w1, [SysFind name; SysSet name value])
  | None =>
      if isSkipSvc flags then
        let '(status, w1) := system_property_add name (strlen name) value (strlen value) w in
        (status, w1, [SysFind name; SysAdd name value])
      else
        let '(status, w1) := system_property_set name value w in
        (status, w1, [SysFind name; SysSet name value])
  end.
Proof.
  intros Hlegal. unfold set_prop. rewrite Hlegal. run.
  destruct (system_property_find name w) as [pi|].
  - destruct (str_starts name "ro."); run.
    + destruct (system_property_delete name false w) as [r0 w1].
      destruct (isSkipSvc flags); run.
      * now destruct (system_property_add name (strlen name) value (strlen value) w1).
      * now destruct (system_property_set name value w1).
    + destruct (isSkipSvc flags); run.
      * now destruct (system_property_update pi value (strlen value) w).
      * now destruct (system_property_set name value w).
  - destruct (isSkipSvc flags); run.
    + now destruct (system_property_add name (strlen name) value (strlen value) w).
    + now destruct (system_property_set name value w).
Qed.

(** C1: a [set] of a legal name under [ro.] that has a live entry first
    deletes that entry without pruning, then creates it anew: with a
    direct add when skip-service is set, through the property service
    otherwise.  No in-place update is made. *)
Theorem set_prop_readonly_recreates
  (name value : string) (flags : PropFlags.t) (w : W) (pi : H) :
  check_legal_property_name name = true ->
  str_starts name "ro." = true ->
  system_property_find name w = Some pi ->
  let '(_, w1) := system_property_delete name false w in
  let create :=
    if isSkipSvc flags
    then system_property_add name (strlen name) value (strlen value) w1
    else system_property_set name value w1 in
  set_prop name value flags w =
    (fst create, snd create,
     [SysFind name; SysDelete name false;
      if isSkipSvc flags then SysAdd name value else SysSet name value]) /\
  existsb is_update (events (set_prop name value flags w)) = false.
Proof.
  intros Hlegal Hro Hfind.
  rewrite (set_prop_run _ _ _ _ Hlegal), Hfind, Hro.
  destruct (system_property_delete name false w) as [r0 w1].
  destruct (isSkipSvc flags).
  - destruct (system_property_add name (strlen name) value (strlen value) w1);
      simpl; auto.
  - destruct (system_property_set name value w1); simpl; auto.
Qed.

(** [set_prop] reads one bit of the flag word, skip-service. *)
Lemma set_prop_skip_only (name value : string) (flags flags' : PropFlags.t) (w : W) :
  isSkipSvc flags = isSkipSvc flags' ->
  set_prop name value flags w = set_prop name value flags' w.
Proof.
  intros Hskip. destruct (check_legal_property_name name) eqn:Hlegal.
  - now rewrite !(set_prop_run _ _ _ _ Hlegal), <- Hskip.
  - unfold set_prop. now rewrite Hlegal.
Qed.

Corollary set_prop_ignores_persist (name value : string) (flags : PropFlags.t) (w : W) :
  set_prop name value (setPersist flags) w = set_prop name value flags w.
Proof. apply set_prop_skip_only, isSkipSvc_setPersist. Qed.

Corollary set_prop_ignores_context (name value : string) (flags : PropFlags.t) (w : W) :
  set_prop name value (setContext flags) w = set_prop name value flags w.
Proof. apply set_prop_skip_only, isSkipSvc_setContext. Qed.

(** C8, as amended: [set] makes no call into the persisted store, and
    neither its result nor its effects depend on the use-persisted and
    want-context flags: two flag words that agree on skip-service give
    the same run.  Every call it makes is a call into the live table.
    Its writes are a direct add or in-place update under skip-service and
    the set of the property service otherwise, but for one write that is
    direct whatever skip-service says: the delete without pruning of the
    live entry of a name under [ro.], made before the entry is created
    anew. *)
Theorem set_prop_writes_live_only
  (name value : string) (flags flags' : PropFlags.t) (w : W) :
  isSkipSvc flags = isSkipSvc flags' ->
  set_prop name value flags w = set_prop name value flags' w /\
  forallb is_live_call (events (set_prop name value flags w)) = true /\
  existsb is_persist_call (events (set_prop name value flags w)) = false /\
  (forall e, In e (events (set_prop name value flags w)) -> is_write e = true ->
     (e = SysDelete name false /\
      has_entry name w = true /\ str_starts name "ro." = true) \/
     (if isSkipSvc flags then is_add e || is_update e else is_service_write e) = true).
Proof.
  intros Hskip. split; [now apply set_prop_skip_only|].
  unfold has_entry.
  destruct (check_legal_property_name name) eqn:Hlegal.
  - rewrite !(set_prop_run _ _ _ _ Hlegal).
    destruct (system_property_find name w) as [pi|].
    + destruct (str_starts name "ro.").
      * destruct (system_property_delete name false w) as [r0 w1].
        destruct (isSkipSvc flags).
        -- destruct (system_property_add name (strlen name) value (strlen value) w1).
           repeat split. intros e [<-|[<-|[<-|[]]]]; simpl; auto; discriminate.
        -- destruct (system_property_set name value w1).
           repeat split. intros e [<-|[<-|[<-|[]]]]; simpl; auto; discriminate.
      * destruct (isSkipSvc flags).
        -- destruct (system_property_update pi value (strlen value) w).
           repeat split. intros e [<-|[<-|[]]]; simpl; auto; discriminate.
        -- destruct (system_property_set name value w).
           repeat split. intros e [<-|[<-|[]]]; simpl; auto; discriminate.
    + destruct (isSkipSvc flags).
      * destruct (system_property_add name (strlen name) value (strlen value) w).
        repeat split. intros e [<-|[<-|[]]]; simpl; auto; discriminate.
      * destruct (system_property_set name value w).
        repeat split. intros e [<-|[<-|[]]]; simpl; auto; discriminate.
  - unfold set_prop. rewrite Hlegal. simpl. repeat split. intros e [].
Qed.

(** *** delete_prop *)

(** The run of [delete_prop] on a legal name. *)
Lemma delete_prop_run (name : string) (flags : PropFlags.t) (w : W) :
  check_legal_property_name name = true ->
  delete_prop name flags w =
    let '(live_status, w1) := system_property_delete name true w in
    if isPersist flags && str_starts name "persist." then
      let '(deleted, w2) := persist_deleteprop name w1 in
      (if deleted then 0%Z else live_status, w2,
       [SysDelete name true; PersistDelete name])
    else (live_status, w1, [SysDelete name true]).
Proof.
  intros Hlegal. unfold delete_prop. rewrite Hlegal. run.
  destruct (system_property_delete name true w) as [live_status w1].
  destruct (isPersist flags && str_starts name "persist."); run; [|reflexivity].
  now destruct (persist_deleteprop name w1) as [[|] w2].
Qed.

(** C5: a [delete] of a legal name reports success whenever the deletion
    from the persisted store is attempted (use-persisted set, name under
    [persist.]) and succeeds, whatever the live table answered; when that
    deletion fails or is not attempted, it reports the status of the
    pruning delete from the live table. *)
Theorem delete_prop_status (name : string) (flags : PropFlags.t) (w : W) :
  check_legal_property_name name = true ->
  let '(live_status, w1) := system_property_delete name true w in
  let attempted := isPersist flags && str_starts name "persist." in
  let deleted := attempted && fst (persist_deleteprop name w1) in
  result (delete_prop name flags w) = (if deleted then 0%Z else live_status) /\
  events (delete_prop name flags w)
  = SysDelete name true :: (if attempted then [PersistDelete name] else []).
Proof.
  intros Hlegal. rewrite (delete_prop_run _ _ _ Hlegal).
  destruct (system_property_delete name true w) as [live_status w1].
  destruct (isPersist flags && str_starts name "persist."); simpl; [|now split].
  now destruct (persist_deleteprop name w1) as [[|] w2].
Qed.

(** *** get_prop *)

(** The run of [get_prop] on a legal name, case by case. *)
Lemma get_prop_run (name : string) (flags : PropFlags.t) (w : W) :
  check_legal_property_name name = true ->
  get_prop name flags w =
  if isContext flags then
    (or_empty (system_property_get_context name w), w, [SysGetContext name])
  else
    match system_property_find name w with
    | None => ("", w, [SysFind name])
    | Some pi =>
        let val := snd (live_read pi w) in
        if empty val && isPersist flags && str_starts name "persist." then
          (persist_getprop name w, w, [SysFind name; read_event pi; PersistGet name])
        else (val, w, [SysFind name; read_event pi])
    end.
Proof.
  intros Hlegal. unfold get_prop. rewrite Hlegal. simpl.
  destruct (isContext flags); [reflexivity|]. run.
  destruct (system_property_find name w) as [pi|]; [|reflexivity].
  rewrite read_prop_with_cb_run. simpl.
  now destruct (empty (snd (live_read pi w)) && isPersist flags && str_starts name "persist.").
Qed.

(** A name without a live entry reads as the empty string, and the
    persisted store is not asked. *)
Lemma get_prop_absent (name : string) (flags : PropFlags.t) (w : W) :
  check_legal_property_name name = true ->
  isContext flags = false ->
  system_property_find name w = None ->
  get_prop name flags w = ("", w, [SysFind name]).
Proof.
  intros Hlegal Hctx Hfind. now rewrite (get_prop_run _ _ _ Hlegal), Hctx, Hfind.
Qed.

Lemma empty_true (s : string) : empty s = true <-> s = "".
Proof. destruct s; simpl; split; congruence. Qed.

(** For a legal name read without want-context, and with
    no fallback to the persisted store in play (use-persisted unset, or
    the name not under [persist.]), [get] returns the empty string both
    when the name has no live entry and when its live entry holds the
    empty string.  The two cases differ in what [find] answers, not in
    what [get] returns. *)
Theorem get_prop_absent_or_empty (name : string) (flags : PropFlags.t) (w : W) :
  check_legal_property_name name = true ->
  isContext flags = false ->
  isPersist flags && str_starts name "persist." = false ->
  (system_property_find name w = None ->
   result (get_prop name flags w) = "") /\
  (forall pi, system_property_find name w = Some pi ->
              snd (live_read pi w) = "" ->
              result (get_prop name flags w) = "").
Proof.
  intros Hlegal Hctx Hfallback.
  rewrite (get_prop_run _ _ _ Hlegal), Hctx. split.
  - now intros ->.
  - intros pi -> Hval. simpl. rewrite Hval. simpl.
    rewrite Hfallback. reflexivity.
Qed.

(** *** The validator comes first *)

(** C9: [get], [set] and [delete] all start with the one validator.  On a
    name it rejects, [get] returns the empty string, [set] and [delete]
    return 1, and none makes any call to the live table or to the
    persisted store; on a name it accepts, none of them stops there: each
    goes on to the live table. *)
Theorem validator_guards_every_operation
  (name value : string) (flags : PropFlags.t) (w : W) :
  (check_legal_property_name name = false ->
   get_prop name flags w = ("", w, []) /\
   set_prop name value flags w = (1%Z, w, []) /\
   delete_prop name flags w = (1%Z, w, [])) /\
  (check_legal_property_name name = true ->
   events (get_prop name flags w) <> [] /\
   events (set_prop name value flags w) <> [] /\
   events (delete_prop name flags w) <> []).
Proof.
  split; intros Hlegal.
  - unfold get_prop, set_prop, delete_prop. now rewrite Hlegal.
  - repeat split.
    + rewrite (get_prop_run _ _ _ Hlegal).
      destruct (isContext flags); [discriminate|].
      destruct (system_property_find name w) as [pi|]; [|discriminate].
      simpl. now destruct (empty _ && isPersist flags && str_starts name "persist.").
    + rewrite (set_prop_run _ _ _ _ Hlegal).
      destruct (system_property_find name w) as [pi|].
      * destruct (str_starts name "ro.").
        -- destruct (system_property_delete name false w) as [r0 w1].
           destruct (isSkipSvc flags).
           ++ now destruct (system_property_add name (strlen name) value (strlen value) w1).
           ++ now destruct (system_property_set name value w1).
        -- destruct (isSkipSvc flags).
           ++ now destruct (system_property_update pi value (strlen value) w).
           ++ now destruct (system_property_set name value w).
      * destruct (isSkipSvc flags).
        -- now destruct (system_property_add name (strlen name) value (strlen value) w).
        -- now destruct (system_property_set name value w).
    + rewrite (delete_prop_run _ _ _ Hlegal).
      destruct (system_property_delete name true w) as [live_status w1].
      destruct (isPersist flags && str_starts name "persist."); [|discriminate].
      now destruct (persist_deleteprop name w1).
Qed.

(** *** print_props *)

Lemma prop_list_mem_app (name : string) (l1 l2 : prop_list) :
  prop_list_mem name (l1 ++ l2) = prop_list_mem name l1 || prop_list_mem name l2.
Proof.
  induction l1 as [|[k v] l1 IH]; simpl; [reflexivity|].
  now destruct (String.eqb k name).
Qed.

Lemma prop_list_mem_false (name : string) (l : prop_list) :
  ~ In name (map fst l) -> prop_list_mem name l = false.
Proof.
  induction l as [|[k v] l IH]; simpl; [reflexivity|]. intros Hnin.
  destruct (String.eqb_spec k name) as [->|Hne]; [elim Hnin; now left|].
  apply IH. intros Hin. apply Hnin. now right.
Qed.

(** Handed entries of distinct names, the collector appends those whose
    name it does not hold yet, in the order they come. *)
Lemma collect_distinct (entries : list (string * string)) (acc : prop_list) :
  NoDup (map fst entries) ->
  collect acc entries
  = acc ++ filter (fun kv => negb (prop_list_mem (fst kv) acc)) entries.
Proof.
  revert acc; induction entries as [|[k v] rest IH]; intros acc Hnd.
  - simpl. now rewrite app_nil_r.
  - simpl in Hnd. inversion Hnd as [|? ? Hnin Hrest]; subst.
    unfold collect in *. simpl. unfold prop_list_insert.
    destruct (prop_list_mem k acc) eqn:Hmem; simpl.
    + now apply IH.
    + rewrite (IH _ Hrest), <- app_assoc. simpl. do 2 f_equal.
      apply filter_ext_in. intros [k' v'] Hin. simpl.
      rewrite prop_list_mem_app. simpl.
      destruct (String.eqb_spec k k') as [->|Hne].
      * elim Hnin. change k' with (fst (k', v')). now apply in_map.
      * now rewrite orb_false_r.
Qed.

Lemma foreach_collector_run (handles : list H) (acc : prop_list) (w : W) :
  foreach_handle (fun pi a => read_prop_with_cb pi prop_collector a) handles acc w
  = (collect acc (map (fun pi => live_read pi w) handles), w, map read_event handles).
Proof.
  revert acc; induction handles as [|pi rest IH]; intros acc; [reflexivity|].
  simpl. unfold bind. rewrite read_prop_with_cb_run, IH. reflexivity.
Qed.

Lemma print_entries_run (flags : PropFlags.t) (l : prop_list) (w : W) :
  print_entries flags l w
  = (tt, w,
     flat_map (fun entry =>
                 (if isContext flags then [SysGetContext (fst entry)] else [])
                 ++ [Printf (format_entry (shown flags w entry))]) l).
Proof.
  induction l as [|[k v] rest IH]; [reflexivity|].
  simpl. unfold bind at 1. unfold print_entry, shown in *.
  destruct (isContext flags); run; now rewrite IH.
Qed.

Lemma stdout_app (ev1 ev2 : list (event H)) :
  stdout (ev1 ++ ev2) = stdout ev1 ++ stdout ev2.
Proof. apply flat_map_app. Qed.

Lemma stdout_reads (handles : list H) : stdout (map read_event handles) = [].
Proof.
  induction handles as [|pi rest IH]; [reflexivity|].
  simpl. rewrite IH. unfold read_event.
  now destruct system_property_read_callback.
Qed.

Lemma stdout_printf (lines : list string) :
  stdout (map (@Printf H) lines) = lines.
Proof.
  induction lines as [|l rest IH]; [reflexivity|]. simpl. now rewrite IH.
Qed.

Lemma stdout_entries (flags : PropFlags.t) (w : W) (l : prop_list) :
  stdout (flat_map (fun entry =>
                      (if isContext flags then [@SysGetContext H (fst entry)] else [])
                      ++ [Printf (format_entry (shown flags w entry))]) l)
  = map (fun entry => format_entry (shown flags w entry)) l.
Proof.
  induction l as [|entry rest IH]; [reflexivity|].
  simpl. rewrite !stdout_app, IH. now destruct (isContext flags).
Qed.

(** The run of [print_props], whatever the stores enumerate. *)
Lemma print_props_run (flags : PropFlags.t) (w : W) :
  print_props flags w
  = (tt, w,
     SysForeach :: map read_event (system_property_foreach w)
     ++ (if isPersist flags then [PersistForeach] else [])
     ++ flat_map (fun entry =>
                    (if isContext flags then [SysGetContext (fst entry)] else [])
                    ++ [Printf (format_entry (shown flags w entry))])
          (collect (collect [] (live_entries w))
                   (if isPersist flags then persist_getprops w else []))).
Proof.
  unfold print_props, sys_foreach, bind.
  rewrite foreach_collector_run. fold (live_entries w).
  destruct (isPersist flags); unfold persist_foreach, ret;
    rewrite print_entries_run; simpl; now rewrite <- ?app_assoc.
Qed.

Lemma print_props_stdout (flags : PropFlags.t) (w : W) :
  stdout (events (print_props flags w))
  = map (fun entry => format_entry (shown flags w entry))
      (collect (collect [] (live_entries w))
               (if isPersist flags then persist_getprops w else [])).
Proof.
  rewrite print_props_run. unfold events. simpl.
  rewrite !stdout_app, stdout_reads, stdout_entries.
  now destruct (isPersist flags).
Qed.

Lemma shown_value (flags : PropFlags.t) (w : W) (entry : string * string) :
  isContext flags = false -> shown flags w entry = entry.
Proof.
  intros Hctx. unfold shown. rewrite Hctx. now destruct entry.
Qed.

(** C2: [print_props] writes the entries first seen first: those of the
    live table in the order the table yields them, then, when
    use-persisted is set, those of the persisted store whose name the live
    table lacks, in the persisted store's order.  A name the live table
    holds is written once, and what is written next to a name is its
    value (the live one for a name of the live table) unless want-context
    asks for its security context. *)
Theorem print_props_first_seen (flags : PropFlags.t) (w : W) :
  NoDup (map fst (live_entries w)) ->
  NoDup (map fst (persist_getprops w)) ->
  stdout (events (print_props flags w))
  = map (fun entry => format_entry (shown flags w entry))
      (live_entries w ++ if isPersist flags then persisted_only w else []) /\
  (isContext flags = false ->
   stdout (events (print_props flags w))
   = map format_entry
       (live_entries w ++ if isPersist flags then persisted_only w else [])).
Proof.
  intros Hlive Hpers.
  assert (Hmerge : collect (collect [] (live_entries w))
                     (if isPersist flags then persist_getprops w else [])
                   = live_entries w ++ if isPersist flags then persisted_only w else []).
  { assert (Hl : collect [] (live_entries w) = live_entries w).
    { rewrite (collect_distinct _ _ Hlive). simpl.
      apply forallb_filter_id. now apply forallb_forall. }
    rewrite Hl. destruct (isPersist flags).
    - now rewrite (collect_distinct _ _ Hpers).
    - unfold collect. simpl. now rewrite app_nil_r. }
  rewrite print_props_stdout, Hmerge. split; [reflexivity|].
  intros Hctx. apply map_ext. intros entry. now rewrite shown_value.
Qed.

(** *** load_file *)

(** The callback of [load_file] never ends the parse: every pair of the
    file is handed to [set_prop], in file order. *)
Lemma parse_entries_load (entries : list (string * string)) (flags : PropFlags.t) (w : W) :
  parse_entries entries (load_file_cb flags) w = set_each entries flags w.
Proof.
  revert w; induction entries as [|[key val] rest IH]; intros w; [reflexivity|].
  simpl. unfold load_file_cb, bind, ret.
  destruct (set_prop key val flags w) as [[status w1] e1].
  rewrite IH, app_nil_r. reflexivity.
Qed.

Lemma set_each_app (l1 l2 : list (string * string)) (flags : PropFlags.t) (w : W) :
  set_each (l1 ++ l2) flags w =
  let '(_, w1, e1) := set_each l1 flags w in
  let '(_, w2, e2) := set_each l2 flags w1 in
  (tt, w2, e1 ++ e2).
Proof.
  revert w; induction l1 as [|[key val] rest IH]; intros w.
  - simpl. now destruct (set_each l2 flags w) as [[[] w2] e2].
  - simpl. unfold bind.
    destruct (set_prop key val flags w) as [[status w1] e1].
    rewrite IH.
    destruct (set_each rest flags w1) as [[[] w2] e2].
    destruct (set_each l2 flags w2) as [[[] w3] e3].
    now rewrite app_assoc.
Qed.

(** C10: [load_file] hands every pair of the file to [set], in file
    order, and goes on whatever a [set] returns.  Around any pair of the
    file, the sets of the pairs before it are applied, then its own, then
    those of the pairs after it; when its name is illegal the pair is
    skipped and the rest of the file is still applied. *)
Theorem load_file_continues
  (filename : string) (flags : PropFlags.t) (w : W)
  (before : list (string * string)) (key val : string)
  (after : list (string * string)) :
  prop_file_entries filename w = before ++ (key, val) :: after ->
  load_file filename flags w = set_each (prop_file_entries filename w) flags w /\
  (let '(_, w1, e1) := set_each before flags w in
   let '(_, w2, e2) := set_prop key val flags w1 in
   let '(_, w3, e3) := set_each after flags w2 in
   load_file filename flags w = (tt, w3, e1 ++ e2 ++ e3)) /\
  (check_legal_property_name key = false ->
   let '(_, w1, e1) := set_each before flags w in
   let '(_, w3, e3) := set_each after flags w1 in
   load_file filename flags w = (tt, w3, e1 ++ e3)).
Proof.
  intros Hfile.
  assert (Hload : load_file filename flags w
                  = set_each (prop_file_entries filename w) flags w).
  { unfold load_file, parse_prop_file. apply parse_entries_load. }
  split; [exact Hload|].
  rewrite Hload, Hfile, set_each_app. simpl. unfold bind.
  destruct (set_each before flags w) as [[[] w1] e1].
  split.
  - destruct (set_prop key val flags w1) as [[status w2] e2].
    now destruct (set_each after flags w2) as [[[] w3] e3].
  - intros Hillegal. unfold set_prop. rewrite Hillegal. simpl.
    now destruct (set_each after flags w1) as [[[] w3] e3].
Qed.

(** *** Initialisation *)

Lemma init_count_app (ev1 ev2 : list (event H)) :
  init_count (ev1 ++ ev2) = init_count ev1 + init_count ev2.
Proof.
  unfold init_count. now rewrite filter_app, length_app.
Qed.

(** The constructor of [Initialize] runs the initialisation once. *)
Lemma InitOnce_run (w : W) :
  InitOnce w
  = (tt, snd (system_properties_init w),
     [Dlsym "__system_property_set"; Dlsym "__system_property_read";
      Dlsym "__system_property_find"; Dlsym "__system_property_read_callback";
      Dlsym "__system_property_foreach"; SysInit]).
Proof.
  unfold InitOnce, Initialize. run.
  now destruct (system_properties_init w).
Qed.

Lemma init_count_reads (handles : list H) :
  init_count (map read_event handles) = 0.
Proof.
  induction handles as [|pi rest IH]; [reflexivity|].
  simpl. unfold read_event at 1.
  destruct system_property_read_callback; exact IH.
Qed.

(** None of the operations initialises anything by itself. *)
Lemma set_prop_no_init (name value : string) (flags : PropFlags.t) (w : W) :
  init_count (events (set_prop name value flags w)) = 0.
Proof.
  destruct (check_legal_property_name name) eqn:Hlegal.
  - rewrite (set_prop_run _ _ _ _ Hlegal).
    destruct (system_property_find name w) as [pi|].
    + destruct (str_starts name "ro.").
      * destruct (system_property_delete name false w) as [r0 w1].
        destruct (isSkipSvc flags).
        -- now destruct (system_property_add name (strlen name) value (strlen value) w1).
        -- now destruct (system_property_set name value w1).
      * destruct (isSkipSvc flags).
        -- now destruct (system_property_update pi value (strlen value) w).
        -- now destruct (system_property_set name value w).
    + destruct (isSkipSvc flags).
      * now destruct (system_property_add name (strlen name) value (strlen value) w).
      * now destruct (system_property_set name value w).
  - unfold set_prop. now rewrite Hlegal.
Qed.

Lemma get_prop_no_init (name : string) (flags : PropFlags.t) (w : W) :
  init_count (events (get_prop name flags w)) = 0.
Proof.
  destruct (check_legal_property_name name) eqn:Hlegal.
  - rewrite (get_prop_run _ _ _ Hlegal).
    destruct (isContext flags); [reflexivity|].
    destruct (system_property_find name w) as [pi|]; [|reflexivity].
    simpl.
    destruct (empty _ && isPersist flags && str_starts name "persist.");
      unfold events, init_count; simpl; unfold read_event;
      now destruct system_property_read_callback.
  - unfold get_prop. now rewrite Hlegal.
Qed.

Lemma delete_prop_no_init (name : string) (flags : PropFlags.t) (w : W) :
  init_count (events (delete_prop name flags w)) = 0.
Proof.
  destruct (check_legal_property_name name) eqn:Hlegal.
  - rewrite (delete_prop_run _ _ _ Hlegal).
    destruct (system_property_delete name true w) as [live_status w1].
    destruct (isPersist flags && str_starts name "persist."); [|reflexivity].
    now destruct (persist_deleteprop name w1).
  - unfold delete_prop. now rewrite Hlegal.
Qed.

Lemma set_each_no_init (entries : list (string * string)) (flags : PropFlags.t) (w : W) :
  init_count (events (set_each entries flags w)) = 0.
Proof.
  revert w; induction entries as [|[key val] rest IH]; intros w; [reflexivity|].
  simpl. unfold bind.
  pose proof (set_prop_no_init key val flags w) as Hset.
  destruct (set_prop key val flags w) as [[status w1] e1].
  specialize (IH w1).
  destruct (set_each rest flags w1) as [[[] w2] e2].
  unfold events in *; simpl in *. rewrite init_count_app. lia.
Qed.

Lemma load_file_no_init (filename : string) (flags : PropFlags.t) (w : W) :
  init_count (events (load_file filename flags w)) = 0.
Proof.
  unfold load_file, parse_prop_file. rewrite parse_entries_load.
  apply set_each_no_init.
Qed.

Lemma print_props_no_init (flags : PropFlags.t) (w : W) :
  init_count (events (print_props flags w)) = 0.
Proof.
  rewrite print_props_run. unfold events. simpl.
  change (init_count (SysForeach :: ?l)) with (init_count l).
  rewrite !init_count_app, init_count_reads.
  assert (Hentries : forall l : prop_list,
    init_count (flat_map (fun entry =>
                   (if isContext flags then [@SysGetContext H (fst entry)] else [])
                   ++ [Printf (format_entry (shown flags w entry))]) l) = 0).
  { induction l as [|entry rest IH]; [reflexivity|].
    simpl. rewrite !init_count_app, IH. now destruct (isContext flags). }
  rewrite Hentries. now destruct (isPersist flags).
Qed.

(** An operation run after [InitOnce] has the one initialisation of
    [InitOnce] among its events. *)
Lemma after_InitOnce {A : Type} (op : M W H A) (w : W) :
  (forall w', init_count (events (op w')) = 0) ->
  init_count (events ((InitOnce ;;; op) w)) = 1.
Proof.
  intros Hop. unfold bind. rewrite InitOnce_run.
  specialize (Hop (snd (system_properties_init w))).
  destruct (op (snd (system_properties_init w))) as [[a w1] e1].
  unfold events in *; simpl in *. exact (f_equal S Hop).
Qed.

Lemma then_ret_events {A B : Type} (op : M W H A) (b : B) (w : W) :
  events ((op ;;; ret b) w) = events (op w).
Proof.
  unfold bind, ret. destruct (op w) as [[a w1] e1]. apply app_nil_r.
Qed.

Lemma resetprop_main_init_count (argv : list string) (w : W) :
  init_count (events (resetprop_main argv w))
  = if reaches_init (CallMain argv) then 1 else 0.
Proof.
  unfold resetprop_main, reaches_init.
  destruct (parse_options (tl argv) _) as [[st args]|]; [|reflexivity].
  apply after_InitOnce. intros w'.
  destruct (prop_to_rm st) as [name|]; [apply delete_prop_no_init|].
  destruct (prop_file st) as [filename|].
  { rewrite then_ret_events. apply load_file_no_init. }
  destruct args as [|name [|value [|extra args]]].
  - rewrite then_ret_events. apply print_props_no_init.
  - unfold bind. pose proof (get_prop_no_init name (cli_flags st) w') as Hget.
    destruct (get_prop name (cli_flags st) w') as [[val w1] e1].
    unfold events in *; simpl in *.
    destruct (empty val); simpl; rewrite init_count_app, Hget; reflexivity.
  - apply set_prop_no_init.
  - reflexivity.
Qed.

(** Each call of an entry point that gets to [InitOnce] runs the
    initialisation once. *)
Lemma run_call_init_count (c : entry_call) (w : W) :
  init_count (events (run_call c w)) = if reaches_init c then 1 else 0.
Proof.
  destruct c as [argv|name p|name p|name value s|filename s]; simpl.
  - rewrite then_ret_events. apply resetprop_main_init_count.
  - rewrite then_ret_events. apply after_InitOnce. intros; apply get_prop_no_init.
  - rewrite then_ret_events. apply after_InitOnce. intros; apply delete_prop_no_init.
  - rewrite then_ret_events. apply after_InitOnce. intros; apply set_prop_no_init.
  - apply after_InitOnce. intros; apply load_file_no_init.
Qed.

(** Over a process, the initialisation runs as many times as entry
    points were called (and reached [InitOnce]). *)
Lemma run_calls_init_count (cs : list entry_call) (w : W) :
  init_count (events (run_calls cs w)) = List.length (filter reaches_init cs).
Proof.
  revert w; induction cs as [|c rest IH]; intros w; [reflexivity|].
  simpl. unfold bind.
  pose proof (run_call_init_count c w) as Hc.
  destruct (run_call c w) as [[[] w1] e1].
  specialize (IH w1).
  destruct (run_calls rest w1) as [[[] w2] e2].
  unfold events in *; simpl in *. rewrite init_count_app, Hc, IH.
  now destruct (reaches_init c).
Qed.

End StoreFacts.

(** ** The operations on the reference stores *)

Import RefStore.

(** Proves that the names of a concrete list are distinct. *)
Ltac distinct :=
  repeat (constructor;
          [ simpl; intros Hin;
            repeat (destruct Hin as [Hin|Hin]; [discriminate Hin|]); exact Hin | ]);
  constructor.

(** C1 at work: [ro.build.type] is in the live table; setting it with
    skip-service deletes the entry without pruning and adds it anew. *)
Lemma set_prop_readonly_recreates_witness :
  check_legal_property_name "ro.build.type" = true /\
  str_starts "ro.build.type" "ro." = true /\
  system_property_find "ro.build.type" ro_world = Some "ro.build.type" /\
  set_prop "ro.build.type" "userdebug" (setSkipSvc PropFlags.init) ro_world
  = (0%Z,
     with_live ro_world [("sys.usb.config", "mtp"); ("ro.build.type", "userdebug")],
     [SysFind "ro.build.type"; SysDelete "ro.build.type" false;
      SysAdd "ro.build.type" "userdebug"]) /\
  existsb is_update
    (events (set_prop "ro.build.type" "userdebug" (setSkipSvc PropFlags.init) ro_world))
  = false.
Proof.
  do 3 (split; [reflexivity|]).
  exact (set_prop_readonly_recreates "ro.build.type" "userdebug"
           (setSkipSvc PropFlags.init) ro_world "ro.build.type"
           eq_refl eq_refl eq_refl).
Defined.

(** C2 at work: live {A -> 1, B -> 2} and persisted {B -> 9, C -> 3}
    print as A -> 1, B -> 2, C -> 3. *)
Lemma print_props_first_seen_witness :
  NoDup (map fst (live_entries abc_world)) /\
  NoDup (map fst (persist_getprops abc_world)) /\
  isContext (setPersist PropFlags.init) = false /\
  stdout (events (print_props (setPersist PropFlags.init) abc_world))
  = map format_entry [("A", "1"); ("B", "2"); ("C", "3")].
Proof.
  assert (Hlive : NoDup (map fst (live_entries abc_world))) by distinct.
  assert (Hpers : NoDup (map fst (persist_getprops abc_world))) by distinct.
  do 3 (split; [assumption || reflexivity|]).
  exact (proj2 (print_props_first_seen (setPersist PropFlags.init) abc_world
                  Hlive Hpers) eq_refl).
Defined.

(** C3: two calls of the high-level [get_prop], on any stores, run the
    initialisation twice. *)
Theorem InitOnce_runs_on_every_call
  {W H : Type} {live : LiveStore W H} {persist : PersistStore W}
  {files : PropFiles W} (w : W) :
  init_count (events (run_calls [CallGet "a.b" false; CallGet "a.b" false] w)) = 2.
Proof.
  rewrite run_calls_init_count. reflexivity.
Qed.

(** C4: [persist.sys.locale] is in the persisted store only; asked for
    with use-persisted, [get_prop] returns the empty string after the one
    call of [find], and the persisted store, which holds [en-US], is not
    asked. *)
Theorem get_prop_absent_skips_persisted :
  check_legal_property_name "persist.sys.locale" = true /\
  str_starts "persist.sys.locale" "persist." = true /\
  isPersist (setPersist PropFlags.init) = true /\
  isContext (setPersist PropFlags.init) = false /\
  system_property_find "persist.sys.locale" persisted_only_world = None /\
  persist_getprop "persist.sys.locale" persisted_only_world = "en-US" /\
  get_prop "persist.sys.locale" (setPersist PropFlags.init) persisted_only_world
  = ("", persisted_only_world, [SysFind "persist.sys.locale"]) /\
  get_prop_api "persist.sys.locale" true persisted_only_world
  = ("", persisted_only_world,
     [Dlsym "__system_property_set"; Dlsym "__system_property_read";
      Dlsym "__system_property_find"; Dlsym "__system_property_read_callback";
      Dlsym "__system_property_foreach"; SysInit; SysFind "persist.sys.locale"]).
Proof.
  repeat split; reflexivity.
Qed.

(** C5 at work: [persist.sys.locale] is in the persisted store only; the
    live table reports a failure, the persisted deletion succeeds, and
    [delete] reports success. *)
Lemma delete_prop_status_witness :
  check_legal_property_name "persist.sys.locale" = true /\
  system_property_delete "persist.sys.locale" true persisted_only_world
  = ((-1)%Z, persisted_only_world) /\
  result (delete_prop "persist.sys.locale" (setPersist PropFlags.init)
            persisted_only_world) = 0%Z /\
  events (delete_prop "persist.sys.locale" (setPersist PropFlags.init)
            persisted_only_world)
  = [SysDelete "persist.sys.locale" true; PersistDelete "persist.sys.locale"].
Proof.
  do 2 (split; [reflexivity|]).
  exact (delete_prop_status "persist.sys.locale" (setPersist PropFlags.init)
           persisted_only_world eq_refl).
Defined.


(** Away from the persisted fallback the result of [get_prop] does not
    tell a missing name from an empty value: [debug.level] is absent from
    one state and present with the empty value in the other, and for every
    flag word [get_prop] returns the same in both; so does the high-level
    [get_prop], which returns the empty string. *)
Lemma get_prop_conflates_absent_and_empty :
  check_legal_property_name "debug.level" = true /\
  system_property_find "debug.level" absent_world = None /\
  system_property_find "debug.level" present_empty_world = Some "debug.level" /\
  live_read "debug.level" present_empty_world = ("debug.level", "") /\
  (forall flags,
     result (get_prop "debug.level" flags absent_world)
     = result (get_prop "debug.level" flags present_empty_world)) /\
  (forall persist_flag,
     result (get_prop_api "debug.level" persist_flag absent_world) = "" /\
     result (get_prop_api "debug.level" persist_flag present_empty_world) = "") /\
  ~ (exists tell : string -> bool, forall flags,
       tell (result (get_prop "debug.level" flags absent_world)) = false /\
       tell (result (get_prop "debug.level" flags present_empty_world)) = true).
Proof.
  assert (Hsame : forall flags,
     result (get_prop "debug.level" flags absent_world)
     = result (get_prop "debug.level" flags present_empty_world)).
  { intros flags.
    rewrite !get_prop_run by reflexivity.
    destruct (isContext flags); [reflexivity|]. simpl.
    rewrite andb_false_r. reflexivity. }
  repeat (split; [reflexivity|]).
  split; [exact Hsame|]. split.
  - intros [|]; split; reflexivity.
  - intros [tell Htell]. destruct (Htell PropFlags.init) as [Ha He].
    rewrite Hsame in Ha. congruence.
Qed.

(** The same on the two states, for the empty flag word. *)
Lemma get_prop_absent_or_empty_witness :
  check_legal_property_name "debug.level" = true /\
  isContext PropFlags.init = false /\
  isPersist PropFlags.init && str_starts "debug.level" "persist." = false /\
  system_property_find "debug.level" absent_world = None /\
  result (get_prop "debug.level" PropFlags.init absent_world) = "" /\
  system_property_find "debug.level" present_empty_world = Some "debug.level" /\
  snd (live_read "debug.level" present_empty_world) = "" /\
  result (get_prop "debug.level" PropFlags.init present_empty_world) = "".
Proof.
  do 4 (split; [reflexivity|]).
  split; [|do 2 (split; [reflexivity|])].
  - exact (proj1 (get_prop_absent_or_empty "debug.level" PropFlags.init absent_world
                    eq_refl eq_refl eq_refl) eq_refl).
  - exact (proj2 (get_prop_absent_or_empty "debug.level" PropFlags.init
                    present_empty_world eq_refl eq_refl eq_refl)
             "debug.level" eq_refl eq_refl).
Defined.

(** C6 at work: [persist.sys.locale] passes the validator, hence it is a
    name of the grammar. *)
Lemma check_legal_property_name_correct_witness :
  check_legal_property_name "persist.sys.locale" = true /\
  NameGrammar.legal "persist.sys.locale".
Proof.
  split; [reflexivity|].
  exact (proj1 (proj1 check_legal_property_name_correct "persist.sys.locale") eq_refl).
Defined.

(** C8, the claim as stated fails: with skip-service unset, setting
    [ro.build.type], which the live table holds, deletes the entry
    straight on the live table before the property service sets it; the
    delete is a write, and it is not the set of the property service. *)
Lemma set_prop_readonly_delete_is_direct :
  isSkipSvc PropFlags.init = false /\
  events (set_prop "ro.build.type" "userdebug" PropFlags.init ro_world)
  = [SysFind "ro.build.type"; SysDelete "ro.build.type" false;
     SysSet "ro.build.type" "userdebug"] /\
  is_write (@SysDelete string "ro.build.type" false) = true /\
  is_service_write (@SysDelete string "ro.build.type" false) = false /\
  ~ (forall (name value : string) (flags : PropFlags.t) (w : world) (e : event string),
       isSkipSvc flags = false ->
       In e (events (set_prop name value flags w)) ->
       is_write e = true -> is_service_write e = true).
Proof.
  do 4 (split; [reflexivity|]).
  intros Hall.
  assert (Hservice := Hall "ro.build.type" "userdebug" PropFlags.init ro_world
                        (SysDelete "ro.build.type" false) eq_refl
                        (or_intror (or_introl eq_refl)) eq_refl).
  discriminate Hservice.
Qed.

(** C8 as amended, at work: setting [ro.build.type] through the property
    service runs the same with and without use-persisted and
    want-context, calls the live table only, and its writes are the
    delete without pruning and the set of the property service. *)
Lemma set_prop_writes_live_only_witness :
  isSkipSvc PropFlags.init = isSkipSvc (setContext (setPersist PropFlags.init)) /\
  set_prop "ro.build.type" "userdebug" PropFlags.init ro_world
  = set_prop "ro.build.type" "userdebug" (setContext (setPersist PropFlags.init)) ro_world /\
  forallb is_live_call
    (events (set_prop "ro.build.type" "userdebug" PropFlags.init ro_world)) = true /\
  existsb is_persist_call
    (events (set_prop "ro.build.type" "userdebug" PropFlags.init ro_world)) = false /\
  (forall e : event string,
     In e [SysFind "ro.build.type"; SysDelete "ro.build.type" false;
           SysSet "ro.build.type" "userdebug"] ->
     is_write e = true ->
     (e = SysDelete "ro.build.type" false /\
      has_entry "ro.build.type" ro_world = true /\
      str_starts "ro.build.type" "ro." = true) \/
     is_service_write e = true).
Proof.
  split; [reflexivity|].
  exact (set_prop_writes_live_only "ro.build.type" "userdebug" PropFlags.init
           (setContext (setPersist PropFlags.init)) ro_world eq_refl).
Defined.

(** C9 at work: [a..b] is rejected by all three operations, which leave
    the stores alone; [sys.usb.config] is accepted by all three. *)
Lemma validator_guards_every_operation_witness :
  check_legal_property_name "a..b" = false /\
  get_prop "a..b" (setPersist PropFlags.init) ro_world = ("", ro_world, []) /\
  set_prop "a..b" "1" (setPersist PropFlags.init) ro_world = (1%Z, ro_world, []) /\
  delete_prop "a..b" (setPersist PropFlags.init) ro_world = (1%Z, ro_world, []) /\
  check_legal_property_name "sys.usb.config" = true /\
  events (get_prop "sys.usb.config" PropFlags.init ro_world) <> [] /\
  events (set_prop "sys.usb.config" "adb" PropFlags.init ro_world) <> [] /\
  events (delete_prop "sys.usb.config" PropFlags.init ro_world) <> [].
Proof.
  split; [reflexivity|].
  destruct (proj1 (validator_guards_every_operation "a..b" "1"
                     (setPersist PropFlags.init) ro_world) eq_refl)
    as (Hget & Hset & Hdelete).
  do 3 (split; [assumption|]).
  split; [reflexivity|].
  exact (proj2 (validator_guards_every_operation "sys.usb.config" "adb"
                  PropFlags.init ro_world) eq_refl).
Defined.

(** C10 at work: of a file of three lines whose second name is illegal,
    the first and the third line are applied, and the loader completes. *)
Lemma load_file_continues_witness :
  prop_file_entries "/system/build.prop" file_world
  = [("a.b", "1")] ++ ("bad..name", "2") :: [("c.d", "3")] /\
  check_legal_property_name "bad..name" = false /\
  load_file "/system/build.prop" PropFlags.init file_world
  = (tt, with_live file_world [("a.b", "1"); ("c.d", "3")],
     [SysFind "a.b"; SysSet "a.b" "1"; SysFind "c.d"; SysSet "c.d" "3"]).
Proof.
  do 2 (split; [reflexivity|]).
  exact (proj2 (proj2 (load_file_continues "/system/build.prop" PropFlags.init
                         file_world [("a.b", "1")] "bad..name" "2" [("c.d", "3")]
                         eq_refl)) eq_refl).
Defined.

(** * Further properties of the code *)

(** ** The flag word, bit by bit *)

Lemma land_lor_other (flags a b : Z) :
  Z.land a b = 0%Z ->
  (Z.land (Z.lor flags a) b =? 0)%Z = (Z.land flags b =? 0)%Z.
Proof.
  intros Hab. now rewrite Z.land_lor_distr_l, Hab, Z.lor_0_r.
Qed.

Lemma land_lor_same (flags m : Z) :
  m <> 0%Z -> Z.land m m = m ->
  (Z.land (Z.lor flags m) m =? 0)%Z = false.
Proof.
  intros Hm Hmm. rewrite Z.land_lor_distr_l, Hmm.
  apply Z.eqb_neq. intros E. apply Z.lor_eq_0_iff in E as [_ E]. contradiction.
Qed.

Ltac other_bit := apply (f_equal negb), land_lor_other; reflexivity.
Ltac same_bit :=
  apply (f_equal negb (y := false)), land_lor_same; [discriminate | reflexivity].

Lemma isSkipSvc_setSkipSvc (flags : PropFlags.t) : isSkipSvc (setSkipSvc flags) = true.
Proof. same_bit. Qed.

Lemma isContext_setContext (flags : PropFlags.t) : isContext (setContext flags) = true.
Proof. same_bit. Qed.

Lemma isPersist_setSkipSvc (flags : PropFlags.t) :
  isPersist (setSkipSvc flags) = isPersist flags.
Proof. other_bit. Qed.

Lemma isContext_setSkipSvc (flags : PropFlags.t) :
  isContext (setSkipSvc flags) = isContext flags.
Proof. other_bit. Qed.

Lemma isContext_setPersist (flags : PropFlags.t) :
  isContext (setPersist flags) = isContext flags.
Proof. other_bit. Qed.

Lemma isPersist_setContext (flags : PropFlags.t) :
  isPersist (setContext flags) = isPersist flags.
Proof. other_bit. Qed.

(** X1: a fresh flag word has no flag set; each setter sets its own flag
    and leaves the other two as they were. *)
Theorem PropFlags_setters_independent (flags : PropFlags.t) :
  (isSkipSvc PropFlags.init = false /\
   isPersist PropFlags.init = false /\
   isContext PropFlags.init = false) /\
  (isSkipSvc (setSkipSvc flags) = true /\
   isPersist (setSkipSvc flags) = isPersist flags /\
   isContext (setSkipSvc flags) = isContext flags) /\
  (isSkipSvc (setPersist flags) = isSkipSvc flags /\
   isPersist (setPersist flags) = true /\
   isContext (setPersist flags) = isContext flags) /\
  (isSkipSvc (setContext flags) = isSkipSvc flags /\
   isPersist (setContext flags) = isPersist flags /\
   isContext (setContext flags) = true).
Proof.
  repeat split; try reflexivity.
  - apply isSkipSvc_setSkipSvc.
  - apply isPersist_setSkipSvc.
  - apply isContext_setSkipSvc.
  - apply isSkipSvc_setPersist.
  - apply isPersist_setPersist.
  - apply isContext_setPersist.
  - apply isSkipSvc_setContext.
  - apply isPersist_setContext.
  - apply isContext_setContext.
Qed.

(** ** The validator on dotted names *)

Lemma char_at_append_left (a s : string) (j : nat) :
  j < strlen a -> char_at (a ++ s) j = char_at a j.
Proof.
  intros Hj. unfold char_at. rewrite !get_nth_error, list_ascii_of_append.
  rewrite nth_error_app1; [reflexivity | now rewrite <- strlen_list].
Qed.

Lemma char_at_append_right (a s : string) (j : nat) :
  char_at (a ++ s) (strlen a + j) = char_at s j.
Proof.
  unfold char_at. rewrite !get_nth_error, list_ascii_of_append, strlen_list.
  rewrite nth_error_app2 by lia.
  now replace (List.length (list_ascii_of_string a) + j
               - List.length (list_ascii_of_string a)) with j by lia.
Qed.

Lemma char_at_after_dot (a b : string) (j : nat) :
  char_at (a ++ String "." b) (strlen a + S j) = char_at b j.
Proof. now rewrite char_at_append_right. Qed.

(** The loop body looks at one character, and at the one before it when
    that character is a dot. *)
Lemma legal_at_ext (name name' : string) (i i' : nat) :
  char_at name i = char_at name' i' ->
  (char_at name' i' = "."%char -> char_at name (i - 1) = char_at name' (i' - 1)) ->
  legal_at name i = legal_at name' i'.
Proof.
  intros Hc Hprev. unfold legal_at. rewrite Hc.
  destruct (char_eq (char_at name' i') ".") eqn:Edot; [|reflexivity].
  apply char_eq_true in Edot. now rewrite (Hprev Edot).
Qed.

Lemma legal_at_dot (name : string) (i : nat) :
  char_at name i = "."%char ->
  legal_at name i = negb (char_eq (char_at name (i - 1)) ".").
Proof.
  intros Hc. unfold legal_at. rewrite Hc. simpl.
  now destruct (char_eq (char_at name (i - 1)) ".").
Qed.

Lemma dotted_legal_parts (a b : string) :
  check_legal_property_name (a ++ String "." b) = true ->
  check_legal_property_name a = true /\ check_legal_property_name b = true.
Proof.
  intros Hs. apply check_legal_inv in Hs as (_ & Hfirst & Hlast & Hall).
  unfold NameGrammar.dot in *.
  rewrite strlen_append in Hlast, Hall.
  change (strlen (String "." b)) with (S (strlen b)) in Hlast, Hall.
  assert (Hla : 1 <= strlen a).
  { destruct a; [now elim Hfirst | unfold strlen; simpl; lia]. }
  assert (Hlb : 1 <= strlen b).
  { destruct b; [|unfold strlen; simpl; lia]. elim Hlast.
    change (strlen "") with 0.
    replace (strlen a + 1 - 1) with (strlen a) by lia. apply char_at_middle. }
  assert (Hmid : char_at (a ++ String "." b) (strlen a) = "."%char)
    by apply char_at_middle.
  assert (Hjoin_a : char_at a (strlen a - 1) <> "."%char).
  { intros Hdot.
    assert (Hin : strlen a < strlen a + S (strlen b)) by lia.
    apply Hall in Hin. rewrite (legal_at_dot _ _ Hmid) in Hin.
    rewrite char_at_append_left, Hdot in Hin by lia. discriminate. }
  assert (Hjoin_b : char_at b 0 <> "."%char).
  { intros Hdot.
    assert (Hin : strlen a + 1 < strlen a + S (strlen b)) by lia.
    apply Hall in Hin.
    assert (Hc : char_at (a ++ String "." b) (strlen a + 1) = "."%char)
      by now rewrite char_at_after_dot.
    rewrite (legal_at_dot _ _ Hc) in Hin.
    replace (strlen a + 1 - 1) with (strlen a) in Hin by lia.
    rewrite Hmid in Hin. discriminate. }
  split; apply check_legal_inv; unfold NameGrammar.dot.
  - repeat split; auto.
    + now rewrite <- (char_at_append_left a (String "." b)) by lia.
    + intros j Hj.
      rewrite (legal_at_ext a (a ++ String "." b) j j).
      * apply Hall; lia.
      * now rewrite char_at_append_left.
      * intros _. now rewrite char_at_append_left by lia.
  - repeat split; auto.
    + replace (strlen a + S (strlen b) - 1) with (strlen a + S (strlen b - 1)) in Hlast
        by lia.
      now rewrite char_at_after_dot in Hlast.
    + intros j Hj.
      rewrite (legal_at_ext b (a ++ String "." b) j (strlen a + S j)).
      * apply Hall; lia.
      * now rewrite char_at_after_dot.
      * rewrite char_at_after_dot. intros Hdot.
        destruct j as [|j]; [now elim Hjoin_b|].
        replace (strlen a + S (S j) - 1) with (strlen a + S j) by lia.
        rewrite char_at_after_dot. simpl. now rewrite Nat.sub_0_r.
Qed.

Lemma legal_parts_dotted (a b : string) :
  check_legal_property_name a = true ->
  check_legal_property_name b = true ->
  check_legal_property_name (a ++ String "." b) = true.
Proof.
  intros Ha Hb.
  apply check_legal_inv in Ha as (Hla & Hfa & Hta & Halla).
  apply check_legal_inv in Hb as (Hlb & Hfb & Htb & Hallb).
  unfold NameGrammar.dot in *.
  apply check_legal_inv. unfold NameGrammar.dot.
  rewrite strlen_append. change (strlen (String "." b)) with (S (strlen b)).
  assert (Hmid : char_at (a ++ String "." b) (strlen a) = "."%char)
    by apply char_at_middle.
  repeat split.
  - lia.
  - now rewrite char_at_append_left by lia.
  - replace (strlen a + S (strlen b) - 1) with (strlen a + S (strlen b - 1)) by lia.
    now rewrite char_at_after_dot.
  - intros j Hj.
    destruct (Nat.lt_trichotomy j (strlen a)) as [Hlt | [-> | Hgt]].
    + rewrite (legal_at_ext (a ++ String "." b) a j j).
      * now apply Halla.
      * now rewrite char_at_append_left.
      * intros _. now rewrite char_at_append_left by lia.
    + rewrite (legal_at_dot _ _ Hmid), char_at_append_left by lia.
      apply char_eq_false in Hta. now rewrite Hta.
    + assert (Hk : exists k, j = strlen a + S k /\ k < strlen b)
        by (exists (j - strlen a - 1); lia).
      destruct Hk as (k & -> & Hk).
      rewrite (legal_at_ext (a ++ String "." b) b (strlen a + S k) k).
      * now apply Hallb.
      * now rewrite char_at_after_dot.
      * intros Hdot.
        destruct k as [|k]; [now elim Hfb|].
        replace (strlen a + S (S k) - 1) with (strlen a + S k) by lia.
        rewrite char_at_after_dot. simpl. now rewrite Nat.sub_0_r.
Qed.

(** X2: a name made of two parts joined by a dot is legal exactly when
    both parts are.  So a name under [ro.] or [persist.] is legal exactly
    when what follows the prefix is. *)
Theorem check_legal_dotted (a b : string) :
  check_legal_property_name (a ++ String "." b)
  = check_legal_property_name a && check_legal_property_name b /\
  check_legal_property_name ("ro." ++ b) = check_legal_property_name b /\
  check_legal_property_name ("persist." ++ b) = check_legal_property_name b.
Proof.
  assert (Hdotted : forall a b,
    check_legal_property_name (a ++ String "." b)
    = check_legal_property_name a && check_legal_property_name b).
  { clear a b. intros a b. apply eq_true_iff_eq. rewrite andb_true_iff. split.
    - apply dotted_legal_parts.
    - intros [Ha Hb]. now apply legal_parts_dotted. }
  split; [apply Hdotted|]. split.
  - apply (Hdotted "ro" b).
  - apply (Hdotted "persist" b).
Qed.

(** ** More on the operations, over any implementation of the collaborators *)

Section MoreFacts.

Context {W H : Type} {live : LiveStore W H} {persist : PersistStore W}
        {files : PropFiles W}.

(** Splits a goal on a legal name along the branches of [set_prop]. *)
Ltac set_prop_cases name value flags w :=
  destruct (system_property_find name w) as [?pi|];
  [ destruct (str_starts name "ro.");
    [ destruct (system_property_delete name false w) as [?r0 ?w1];
      destruct (isSkipSvc flags);
      [ destruct (system_property_add name (strlen name) value (strlen value) _)
      | destruct (system_property_set name value _) ]
    | destruct (isSkipSvc flags);
      [ destruct (system_property_update _ value (strlen value) w)
      | destruct (system_property_set name value w) ] ]
  | destruct (isSkipSvc flags);
    [ destruct (system_property_add name (strlen name) value (strlen value) w)
    | destruct (system_property_set name value w) ] ].

(** *** set_prop *)

(** X3: which writes a [set] makes.  It deletes only when the name is
    legal, has a live entry and is under [ro.], and never with pruning; it
    updates in place only under skip-service, for an entry that is not
    under [ro.]; it adds only under skip-service, when there is no entry
    or the entry is under [ro.]; it goes through the property service
    exactly when the name is legal and skip-service is unset. *)
Theorem set_prop_write_table (name value : string) (flags : PropFlags.t) (w : W) :
  let ev := events (set_prop name value flags w) in
  let legal := check_legal_property_name name in
  let ro := str_starts name "ro." in
  existsb is_delete ev = legal && has_entry name w && ro /\
  ~ In (SysDelete name true) ev /\
  existsb is_update ev = legal && isSkipSvc flags && has_entry name w && negb ro /\
  existsb is_add ev = legal && isSkipSvc flags && (negb (has_entry name w) || ro) /\
  existsb is_service_write ev = legal && negb (isSkipSvc flags).
Proof.
  unfold has_entry.
  destruct (check_legal_property_name name) eqn:Hlegal.
  - rewrite (set_prop_run _ _ _ _ Hlegal).
    set_prop_cases name value flags w; simpl; repeat split;
      try reflexivity; intros Hin; simpl in Hin;
      repeat (destruct Hin as [Hin|Hin]; [discriminate Hin|]); exact Hin.
  - unfold set_prop. rewrite Hlegal. simpl. repeat split. intros [].
Qed.

Lemma set_prop_live_calls (name value : string) (flags : PropFlags.t) (w : W) :
  forallb is_live_call (events (set_prop name value flags w)) = true.
Proof.
  destruct (check_legal_property_name name) eqn:Hlegal.
  - rewrite (set_prop_run _ _ _ _ Hlegal).
    set_prop_cases name value flags w; reflexivity.
  - unfold set_prop. now rewrite Hlegal.
Qed.

Lemma set_prop_find_count (name value : string) (flags : PropFlags.t) (w : W) :
  List.length (filter is_find (events (set_prop name value flags w)))
  = if check_legal_property_name name then 1 else 0.
Proof.
  destruct (check_legal_property_name name) eqn:Hlegal.
  - rewrite (set_prop_run _ _ _ _ Hlegal).
    set_prop_cases name value flags w; reflexivity.
  - unfold set_prop. now rewrite Hlegal.
Qed.

(** *** get_prop *)

(** X4: [get] changes nothing: the state after it is the state before,
    and it makes no writing call.  It asks the persisted store at most
    once, and only for a legal name under [persist.], with use-persisted
    set and want-context unset. *)
Theorem get_prop_read_only (name : string) (flags : PropFlags.t) (w : W) :
  let ev := events (get_prop name flags w) in
  final (get_prop name flags w) = w /\
  existsb is_write ev = false /\
  List.length (filter is_persist_call ev) <= 1 /\
  (existsb is_persist_call ev = true ->
   check_legal_property_name name = true /\
   str_starts name "persist." = true /\
   isPersist flags = true /\
   isContext flags = false).
Proof.
  destruct (check_legal_property_name name) eqn:Hlegal.
  - rewrite (get_prop_run _ _ _ Hlegal).
    destruct (isContext flags); [simpl; repeat split; (lia || discriminate)|].
    destruct (system_property_find name w) as [pi|];
      [|simpl; repeat split; (lia || discriminate)].
    simpl.
    destruct (empty (snd (live_read pi w))); simpl;
      destruct (isPersist flags); simpl;
      destruct (str_starts name "persist."); simpl;
      unfold read_event; destruct system_property_read_callback; simpl;
      repeat split; (lia || discriminate).
  - unfold get_prop. rewrite Hlegal. simpl. repeat split; (lia || discriminate).
Qed.

(** X5: a live value that is not empty is what [get] returns, whatever
    use-persisted says: the run is the [find] and the read, and the
    persisted store is not asked. *)
Theorem get_prop_live_value_wins
  (name : string) (flags : PropFlags.t) (w : W) (pi : H) :
  check_legal_property_name name = true ->
  isContext flags = false ->
  system_property_find name w = Some pi ->
  snd (live_read pi w) <> "" ->
  get_prop name flags w = (snd (live_read pi w), w, [SysFind name; read_event pi]).
Proof.
  intros Hlegal Hctx Hfind Hval.
  rewrite (get_prop_run _ _ _ Hlegal), Hctx, Hfind. simpl.
  destruct (empty (snd (live_read pi w))) eqn:Hempty; [|reflexivity].
  apply empty_true in Hempty. contradiction.
Qed.

(** X6: under want-context [get] answers from the context lookup alone:
    one call of [get_context], no [find], no read, no call to the
    persisted store, whether or not the name has an entry and whatever
    the other flags are; a null context reads as the empty string. *)
Theorem get_prop_context_only (name : string) (flags : PropFlags.t) (w : W) :
  check_legal_property_name name = true ->
  isContext flags = true ->
  get_prop name flags w
  = (match system_property_get_context name w with
     | Some context => context
     | None => ""
     end, w, [SysGetContext name]).
Proof.
  intros Hlegal Hctx. now rewrite (get_prop_run _ _ _ Hlegal), Hctx.
Qed.

(** *** Flags an operation does not read *)

Lemma set_each_skip_only
  (entries : list (string * string)) (flags flags' : PropFlags.t) (w : W) :
  isSkipSvc flags = isSkipSvc flags' ->
  set_each entries flags w = set_each entries flags' w.
Proof.
  intros Hskip. revert w.
  induction entries as [|[key val] rest IH]; intros w; [reflexivity|].
  simpl. unfold bind. rewrite (set_prop_skip_only key val flags flags' w Hskip).
  destruct (set_prop key val flags' w) as [[status w1] e1]. now rewrite IH.
Qed.

Lemma load_file_skip_only (filename : string) (flags flags' : PropFlags.t) (w : W) :
  isSkipSvc flags = isSkipSvc flags' ->
  load_file filename flags w = load_file filename flags' w.
Proof.
  intros Hskip. unfold load_file, parse_prop_file.
  rewrite !parse_entries_load. now apply set_each_skip_only.
Qed.

Lemma print_props_flags (flags flags' : PropFlags.t) (w : W) :
  isPersist flags = isPersist flags' ->
  isContext flags = isContext flags' ->
  print_props flags w = print_props flags' w.
Proof.
  intros Hp Hc. rewrite !print_props_run. unfold shown. now rewrite Hp, Hc.
Qed.

(** X7: the flags an operation does not read change nothing in its run.
    Skip-service is without effect on [get], [delete] and [print_props];
    want-context on [delete] and [load_file]; use-persisted on
    [load_file]. *)
Theorem unread_flags_change_nothing
  (name filename : string) (flags : PropFlags.t) (w : W) :
  get_prop name (setSkipSvc flags) w = get_prop name flags w /\
  delete_prop name (setSkipSvc flags) w = delete_prop name flags w /\
  delete_prop name (setContext flags) w = delete_prop name flags w /\
  print_props (setSkipSvc flags) w = print_props flags w /\
  load_file filename (setPersist flags) w = load_file filename flags w /\
  load_file filename (setContext flags) w = load_file filename flags w.
Proof.
  repeat split.
  - unfold get_prop. now rewrite isContext_setSkipSvc, isPersist_setSkipSvc.
  - unfold delete_prop. now rewrite isPersist_setSkipSvc.
  - unfold delete_prop. now rewrite isPersist_setContext.
  - apply print_props_flags; [apply isPersist_setSkipSvc | apply isContext_setSkipSvc].
  - apply load_file_skip_only, isSkipSvc_setPersist.
  - apply load_file_skip_only, isSkipSvc_setContext.
Qed.

(** *** print_props *)

(** X8: [print_props] changes nothing and makes no writing call.  It
    enumerates the persisted store once when use-persisted is set and not
    at all otherwise, and looks up one security context per line it
    writes when want-context is set, none otherwise. *)
Theorem print_props_read_only (flags : PropFlags.t) (w : W) :
  let ev := events (print_props flags w) in
  final (print_props flags w) = w /\
  existsb is_write ev = false /\
  List.length (filter is_persist_call ev) = (if isPersist flags then 1 else 0) /\
  List.length (filter is_context_call ev)
  = (if isContext flags then List.length (stdout ev) else 0).
Proof.
  rewrite print_props_run. unfold final, events. simpl.
  set (entries := collect _ _).
  assert (Hread_w : forall handles,
            existsb is_write (map read_event handles) = false).
  { induction handles as [|pi rest IH]; [reflexivity|]. simpl. rewrite IH.
    unfold read_event. now destruct system_property_read_callback. }
  assert (Hread_p : forall handles,
            filter is_persist_call (map read_event handles) = []).
  { induction handles as [|pi rest IH]; [reflexivity|]. simpl. rewrite IH.
    unfold read_event. now destruct system_property_read_callback. }
  assert (Hread_c : forall handles,
            filter is_context_call (map read_event handles) = []).
  { induction handles as [|pi rest IH]; [reflexivity|]. simpl. rewrite IH.
    unfold read_event. now destruct system_property_read_callback. }
  assert (Hread_o : forall handles, stdout (map read_event handles) = [])
    by apply stdout_reads.
  assert (Hent_w : forall l : prop_list,
            existsb is_write
              (flat_map (fun entry =>
                 (if isContext flags then [@SysGetContext H (fst entry)] else [])
                 ++ [Printf (format_entry (shown flags w entry))]) l) = false).
  { induction l as [|entry rest IH]; [reflexivity|]. simpl.
    rewrite existsb_app, IH. now destruct (isContext flags). }
  assert (Hent_p : forall l : prop_list,
            filter is_persist_call
              (flat_map (fun entry =>
                 (if isContext flags then [@SysGetContext H (fst entry)] else [])
                 ++ [Printf (format_entry (shown flags w entry))]) l) = []).
  { induction l as [|entry rest IH]; [reflexivity|]. simpl.
    rewrite filter_app, IH. now destruct (isContext flags). }
  assert (Hent_c : forall l : prop_list,
            List.length (filter is_context_call
              (flat_map (fun entry =>
                 (if isContext flags then [@SysGetContext H (fst entry)] else [])
                 ++ [Printf (format_entry (shown flags w entry))]) l))
            = if isContext flags then List.length l else 0).
  { induction l as [|entry rest IH]; [now destruct (isContext flags)|]. simpl.
    rewrite filter_app, length_app, IH. now destruct (isContext flags). }
  repeat split.
  - rewrite !existsb_app, Hread_w, Hent_w. now destruct (isPersist flags).
  - rewrite !filter_app, Hread_p, Hent_p. now destruct (isPersist flags).
  - rewrite !filter_app, !length_app, Hread_c, Hent_c.
    rewrite !stdout_app, Hread_o, stdout_entries, !length_app, length_map.
    destruct (isPersist flags); destruct (isContext flags); simpl; lia.
Qed.

(** *** load_file *)

Lemma live_calls_no_persist_call (ev : list (event H)) :
  forallb is_live_call ev = true -> existsb is_persist_call ev = false.
Proof.
  induction ev as [|e rest IH]; [reflexivity|]. simpl.
  intros Hall. apply andb_prop in Hall as [He Hrest].
  rewrite (IH Hrest). now destruct e.
Qed.

Lemma set_each_live_calls
  (entries : list (string * string)) (flags : PropFlags.t) (w : W) :
  forallb is_live_call (events (set_each entries flags w)) = true /\
  List.length (filter is_find (events (set_each entries flags w)))
  = List.length (filter (fun kv => check_legal_property_name (fst kv)) entries).
Proof.
  revert w; induction entries as [|[key val] rest IH]; intros w; [now split|].
  simpl. unfold bind.
  pose proof (set_prop_live_calls key val flags w) as Hlive.
  pose proof (set_prop_find_count key val flags w) as Hfind.
  destruct (set_prop key val flags w) as [[status w1] e1].
  destruct (IH w1) as [IHlive IHfind].
  destruct (set_each rest flags w1) as [[[] w2] e2].
  unfold events in *; simpl in *. split.
  - now rewrite forallb_app, Hlive, IHlive.
  - rewrite filter_app, length_app, Hfind, IHfind.
    now destruct (check_legal_property_name key).
Qed.

(** X9: [load_file] works on the live table only: every call it makes is
    a call to the live table, none to the persisted store; and it looks
    up exactly the pairs of the file whose name is legal, once each. *)
Theorem load_file_live_calls (filename : string) (flags : PropFlags.t) (w : W) :
  let ev := events (load_file filename flags w) in
  forallb is_live_call ev = true /\
  existsb is_persist_call ev = false /\
  List.length (filter is_find ev)
  = List.length (filter (fun kv => check_legal_property_name (fst kv))
                        (prop_file_entries filename w)).
Proof.
  unfold load_file, parse_prop_file. rewrite parse_entries_load.
  destruct (set_each_live_calls (prop_file_entries filename w) flags w) as [Hlive Hfind].
  repeat split; auto using live_calls_no_persist_call.
Qed.

(** *** Initialisation and the entry points *)

Lemma InitOnce_then {A : Type} (op : M W H A) (w : W) :
  (InitOnce ;;; op) w
  = let '(a, w1, e1) := op (snd (system_properties_init w)) in
    (a, w1, init_events ++ e1).
Proof.
  unfold bind. rewrite InitOnce_run. reflexivity.
Qed.

Lemma InitOnce_then_events {A : Type} (op : M W H A) (w : W) :
  events ((InitOnce ;;; op) w)
  = init_events ++ events (op (snd (system_properties_init w))).
Proof.
  rewrite InitOnce_then. now destruct (op _) as [[a w1] e1].
Qed.

(** X10: the high-level functions initialise before they validate: on a
    name the validator rejects they still run the initialisation, and
    nothing else, and return the failure of the operation. *)
Theorem api_initialises_before_validating
  (name value : string) (flag : bool) (w : W) :
  check_legal_property_name name = false ->
  get_prop_api name flag w = ("", snd (system_properties_init w), init_events) /\
  set_prop_api name value flag w = (1%Z, snd (system_properties_init w), init_events) /\
  delete_prop_api name flag w = (1%Z, snd (system_properties_init w), init_events).
Proof.
  intros Hlegal. unfold get_prop_api, set_prop_api, delete_prop_api.
  rewrite !InitOnce_then. unfold get_prop, set_prop, delete_prop.
  rewrite Hlegal. repeat split.
Qed.

(** *** resetprop_main *)

(** X11: a run of [resetprop_main] either ends in [usage] while parsing
    its options, with status 1 and without a single call, or starts with
    the initialisation; and it initialises at most once. *)
Theorem resetprop_main_initialises_first (argv : list string) (w : W) :
  (resetprop_main argv w = (1%Z, w, []) \/
   exists rest, events (resetprop_main argv w) = init_events ++ rest) /\
  init_count (events (resetprop_main argv w)) <= 1.
Proof.
  split.
  - unfold resetprop_main.
    destruct (parse_options (tl argv) _) as [[st args]|]; [right|now left].
    eexists. apply InitOnce_then_events.
  - rewrite resetprop_main_init_count. destruct (reaches_init _); lia.
Qed.

(** X12: [-d] and [--delete] are one option, and so are [-f] and
    [--file].  Each wants exactly one more argument, the last of the
    command line: then the name is deleted, or the file loaded, after the
    initialisation; with none or with more than one, [usage] ends the
    run with status 1 before any call. *)
Theorem delete_and_file_options
  (prog : string) (rest : list string) (st : cli) (w : W) :
  parse_options ("-d" :: rest) st = parse_options ("--delete" :: rest) st /\
  parse_options ("-f" :: rest) st = parse_options ("--file" :: rest) st /\
  resetprop_main (prog :: "--delete" :: rest) w = resetprop_main (prog :: "-d" :: rest) w /\
  resetprop_main (prog :: "--file" :: rest) w = resetprop_main (prog :: "-f" :: rest) w /\
  resetprop_main (prog :: "-d" :: rest) w
  = match rest with
    | [name] => (InitOnce ;;; delete_prop name PropFlags.init) w
    | _ => (1%Z, w, [])
    end /\
  resetprop_main (prog :: "-f" :: rest) w
  = match rest with
    | [filename] => (InitOnce ;;; load_file filename PropFlags.init ;;; ret 0%Z) w
    | _ => (1%Z, w, [])
    end.
Proof.
  destruct rest as [|x [|y rest]]; repeat split; reflexivity.
Qed.

Lemma substring_all (s : string) : String.substring 0 (String.length s) s = s.
Proof.
  induction s as [|c s IH]; [reflexivity|]. simpl. now rewrite IH.
Qed.

Lemma flag_letter_cases (c : ascii) :
  flag_letter c = true ->
  c = "n"%char \/ c = "p"%char \/ c = "v"%char \/ c = "Z"%char.
Proof.
  unfold flag_letter. rewrite !orb_true_iff, !char_eq_true. tauto.
Qed.

(** The loop over an argument made of flag letters sets their flags and
    nothing else. *)
Lemma parse_option_letters (arg : string) (args : list string) (letters : string) (st : cli) :
  flag_letters letters = true ->
  parse_option arg args letters st
  = Some {| cli_flags := set_letters letters (cli_flags st);
            prop_file := prop_file st; prop_to_rm := prop_to_rm st;
            stop_parse := stop_parse st |}.
Proof.
  revert st; induction letters as [|c rest IH]; intros st Hletters.
  - now destruct st.
  - unfold flag_letters in Hletters. simpl in Hletters.
    apply andb_prop in Hletters as [Hc Hrest].
    apply flag_letter_cases in Hc as [-> | [-> | [-> | ->]]];
      simpl; now rewrite (IH _ Hrest).
Qed.

Lemma set_letters_bits (letters : string) (flags : PropFlags.t) :
  isSkipSvc (set_letters letters flags) = isSkipSvc flags || has_letter "n" letters /\
  isPersist (set_letters letters flags) = isPersist flags || has_letter "p" letters /\
  isContext (set_letters letters flags) = isContext flags || has_letter "Z" letters.
Proof.
  revert flags; induction letters as [|c rest IH]; intros flags.
  - simpl. now rewrite !orb_false_r.
  - simpl.
    destruct (char_eq c "n") eqn:En.
    { apply char_eq_true in En. subst c. destruct (IH (setSkipSvc flags)) as (-> & -> & ->).
      rewrite isSkipSvc_setSkipSvc, isPersist_setSkipSvc, isContext_setSkipSvc.
      simpl. now rewrite orb_true_r. }
    destruct (char_eq c "p") eqn:Ep.
    { apply char_eq_true in Ep. subst c. destruct (IH (setPersist flags)) as (-> & -> & ->).
      rewrite isSkipSvc_setPersist, isPersist_setPersist, isContext_setPersist.
      simpl. now rewrite orb_true_r. }
    destruct (char_eq c "Z") eqn:Ez.
    { apply char_eq_true in Ez. subst c. destruct (IH (setContext flags)) as (-> & -> & ->).
      rewrite isSkipSvc_setContext, isPersist_setContext, isContext_setContext.
      simpl. now rewrite orb_true_r. }
    simpl. apply IH.
Qed.

Lemma parse_options_letters (letters : string) (rest : list string) (st : cli) :
  flag_letters letters = true ->
  parse_options (String "-" letters :: rest) st
  = parse_options rest
      {| cli_flags := set_letters letters (cli_flags st); prop_file := prop_file st;
         prop_to_rm := prop_to_rm st; stop_parse := false |}.
Proof.
  intros Hletters. cbn [parse_options].
  change (char_eq (char_at (String "-" letters) 0) "-") with true. cbv iota.
  replace (String.substring 1 (strlen (String "-" letters) - 1) (String "-" letters))
    with letters.
  - rewrite (parse_option_letters _ _ _ _ Hletters). reflexivity.
  - unfold strlen. simpl. rewrite Nat.sub_0_r. symmetry. apply substring_all.
Qed.

(** X13: an argument made of a dash and flag letters ([n], [p], [v], [Z])
    sets the flags of its letters and lets the parser go on with the
    next argument: afterwards skip-service is set exactly when it was
    before or the argument has an [n], use-persisted likewise with [p],
    want-context with [Z].  So the letters may be given in any order,
    repeated, and in one argument or in several. *)
Theorem parse_options_flag_letters
  (letters : string) (rest : list string) (st : cli) :
  flag_letters letters = true ->
  let flags := set_letters letters (cli_flags st) in
  parse_options (String "-" letters :: rest) st
  = parse_options rest
      {| cli_flags := flags; prop_file := prop_file st;
         prop_to_rm := prop_to_rm st; stop_parse := false |} /\
  isSkipSvc flags = isSkipSvc (cli_flags st) || has_letter "n" letters /\
  isPersist flags = isPersist (cli_flags st) || has_letter "p" letters /\
  isContext flags = isContext (cli_flags st) || has_letter "Z" letters.
Proof.
  intros Hletters. split; [now apply parse_options_letters | apply set_letters_bits].
Qed.

(** X14: what [resetprop_main] does with arguments that are not options.
    None: print all properties.  One: get it, and end with status 1 when
    the value is empty, else write the value on a line and end with 0.
    Two: set the first to the second, which is taken as it is even when
    it starts with a dash.  More: [usage], with status 1, after the
    initialisation.  No flag is set in any of these. *)
Theorem resetprop_main_arguments
  (prog name value extra : string) (more : list string) (w : W) :
  char_eq (char_at name 0) "-" = false ->
  resetprop_main [prog] w = (InitOnce ;;; print_props PropFlags.init ;;; ret 0%Z) w /\
  resetprop_main [prog; name] w
  = (let '(val, w1, ev) := (InitOnce ;;; get_prop name PropFlags.init) w in
     if empty val then (1%Z, w1, ev)
     else (0%Z, w1, ev ++ [Printf (val ++ newline)%string])) /\
  resetprop_main [prog; name; value] w
  = (InitOnce ;;; set_prop name value PropFlags.init) w /\
  resetprop_main (prog :: name :: value :: extra :: more) w
  = (1%Z, snd (system_properties_init w), init_events).
Proof.
  intros Hname. unfold resetprop_main. cbn [tl parse_options].
  rewrite Hname. cbn [prop_to_rm prop_file cli_flags].
  split; [reflexivity|]. split; [|split].
  - rewrite !InitOnce_then. unfold bind.
    destruct (get_prop name PropFlags.init _) as [[val w1] e1].
    destruct (empty val); unfold ret, printf; simpl;
      now rewrite ?app_nil_r, ?app_assoc.
  - reflexivity.
  - rewrite InitOnce_then. unfold ret. now rewrite app_nil_r.
Qed.

(** X15: flags first, then the operation.  After an argument of flag
    letters, [resetprop_main] runs the operation the rest of the command
    line names, with the flags of those letters: print all, get, set,
    delete or load a file. *)
Theorem resetprop_main_flags_then_operation
  (prog letters name value : string) (w : W) :
  flag_letters letters = true ->
  char_eq (char_at name 0) "-" = false ->
  let flags := set_letters letters PropFlags.init in
  resetprop_main [prog; String "-" letters] w
  = (InitOnce ;;; print_props flags ;;; ret 0%Z) w /\
  resetprop_main [prog; String "-" letters; name] w
  = (let '(val, w1, ev) := (InitOnce ;;; get_prop name flags) w in
     if empty val then (1%Z, w1, ev)
     else (0%Z, w1, ev ++ [Printf (val ++ newline)%string])) /\
  resetprop_main [prog; String "-" letters; name; value] w
  = (InitOnce ;;; set_prop name value flags) w /\
  resetprop_main [prog; String "-" letters; "-d"; name] w
  = (InitOnce ;;; delete_prop name flags) w /\
  resetprop_main [prog; String "-" letters; "-f"; name] w
  = (InitOnce ;;; load_file name flags ;;; ret 0%Z) w.
Proof.
  intros Hletters Hname. unfold resetprop_main. cbn [tl].
  rewrite !(parse_options_letters _ _ _ Hletters).
  cbn [parse_options]. rewrite Hname.
  cbn [prop_to_rm prop_file cli_flags]. repeat split.
  rewrite !InitOnce_then. unfold bind.
  destruct (get_prop name _ _) as [[val w1] e1].
  destruct (empty val); unfold ret, printf; simpl;
    now rewrite ?app_nil_r, ?app_assoc.
Qed.

End MoreFacts.

(** ** The further properties on the reference stores *)

(** X4 at work: with use-persisted, [persist.sys.locale] present and
    empty in the live table is read from the persisted store, in one
    call, and nothing is written. *)
Lemma get_prop_read_only_witness :
  existsb is_persist_call
    (events (get_prop "persist.sys.locale" (setPersist PropFlags.init)
               empty_live_world)) = true /\
  final (get_prop "persist.sys.locale" (setPersist PropFlags.init) empty_live_world)
  = empty_live_world /\
  check_legal_property_name "persist.sys.locale" = true /\
  str_starts "persist.sys.locale" "persist." = true /\
  isPersist (setPersist PropFlags.init) = true /\
  isContext (setPersist PropFlags.init) = false.
Proof.
  split; [reflexivity|].
  split.
  - exact (proj1 (get_prop_read_only "persist.sys.locale" (setPersist PropFlags.init)
                    empty_live_world)).
  - exact (proj2 (proj2 (proj2 (get_prop_read_only "persist.sys.locale"
                                  (setPersist PropFlags.init) empty_live_world)))
             eq_refl).
Defined.

(** X5 at work: [sys.usb.config] is read from the live table, with
    use-persisted set as well. *)
Lemma get_prop_live_value_wins_witness :
  check_legal_property_name "sys.usb.config" = true /\
  isContext (setPersist PropFlags.init) = false /\
  system_property_find "sys.usb.config" ro_world = Some "sys.usb.config" /\
  snd (live_read "sys.usb.config" ro_world) <> "" /\
  get_prop "sys.usb.config" (setPersist PropFlags.init) ro_world
  = ("mtp", ro_world, [SysFind "sys.usb.config"; SysReadCallback "sys.usb.config"]).
Proof.
  assert (Hvalue : snd (live_read "sys.usb.config" ro_world) <> "") by discriminate.
  do 3 (split; [reflexivity|]). split; [exact Hvalue|].
  exact (get_prop_live_value_wins "sys.usb.config" (setPersist PropFlags.init)
           ro_world "sys.usb.config" eq_refl eq_refl eq_refl Hvalue).
Defined.

(** X6 at work: the context of a name without entry. *)
Lemma get_prop_context_only_witness :
  check_legal_property_name "debug.level" = true /\
  isContext (setContext (setPersist PropFlags.init)) = true /\
  system_property_find "debug.level" absent_world = None /\
  get_prop "debug.level" (setContext (setPersist PropFlags.init)) absent_world
  = ("u:object_r:default_prop:s0", absent_world, [SysGetContext "debug.level"]).
Proof.
  do 3 (split; [reflexivity|]).
  exact (get_prop_context_only "debug.level" (setContext (setPersist PropFlags.init))
           absent_world eq_refl eq_refl).
Defined.

(** X10 at work: the high-level functions on the illegal name [a..b]. *)
Lemma api_initialises_before_validating_witness :
  check_legal_property_name "a..b" = false /\
  get_prop_api "a..b" true ro_world = ("", ro_world, init_events) /\
  set_prop_api "a..b" "1" true ro_world = (1%Z, ro_world, init_events) /\
  delete_prop_api "a..b" true ro_world = (1%Z, ro_world, init_events).
Proof.
  split; [reflexivity|].
  exact (api_initialises_before_validating "a..b" "1" true ro_world eq_refl).
Defined.

(** X13 at work: [-Znv] sets want-context and skip-service and leaves
    use-persisted unset. *)
Lemma parse_options_flag_letters_witness :
  flag_letters "Znv" = true /\
  parse_options ["-Znv"; "sys.usb.config"] cli_init
  = Some ({| cli_flags := 5%Z; prop_file := None; prop_to_rm := None;
             stop_parse := false |}, ["sys.usb.config"]) /\
  isSkipSvc (set_letters "Znv" PropFlags.init) = true /\
  isPersist (set_letters "Znv" PropFlags.init) = false /\
  isContext (set_letters "Znv" PropFlags.init) = true.
Proof.
  split; [reflexivity|].
  exact (parse_options_flag_letters "Znv" ["sys.usb.config"] cli_init eq_refl).
Defined.

(** X14 at work: [resetprop sys.usb.config] writes the value and ends
    with status 0. *)
Lemma resetprop_main_arguments_witness :
  char_eq (char_at "sys.usb.config" 0) "-" = false /\
  resetprop_main ["resetprop"; "sys.usb.config"] ro_world
  = (0%Z, ro_world,
     init_events
     ++ [SysFind "sys.usb.config"; SysReadCallback "sys.usb.config";
         Printf ("mtp" ++ newline)%string]).
Proof.
  split; [reflexivity|].
  exact (proj1 (proj2 (resetprop_main_arguments "resetprop" "sys.usb.config"
                         "" "" [] ro_world eq_refl))).
Defined.

(** X15 at work: [resetprop -p -d persist.sys.locale] deletes the name
    from both stores and ends with status 0. *)
Lemma resetprop_main_flags_then_operation_witness :
  flag_letters "p" = true /\
  char_eq (char_at "persist.sys.locale" 0) "-" = false /\
  resetprop_main ["resetprop"; "-p"; "-d"; "persist.sys.locale"] persisted_only_world
  = (0%Z, with_persist persisted_only_world [],
     init_events
     ++ [SysDelete "persist.sys.locale" true; PersistDelete "persist.sys.locale"]).
Proof.
  do 2 (split; [reflexivity|]).
  exact (proj1 (proj2 (proj2 (proj2
           (resetprop_main_flags_then_operation "resetprop" "p" "persist.sys.locale"
              "" persisted_only_world eq_refl eq_refl))))).
Defined.
